(** * libipsw: a shallow embedding of the metadata client, the device-trait
      resolver and the developer-portal command, with their specifications.

    The development follows the three Go sources:

    - [internal/download/ipsw_me.go]      (module [IpswMe]),
    - [pkg/xcode/xcode.go]                (module [Xcode]),
    - [cmd/ipsw/cmd/download/download_dev.go] (module [DownloadDev]).

    Module [Go] holds the small part of the Go runtime and standard library
    the three files rely on: error values, [strings.Contains], string
    comparison, and the verbs of [fmt.Sprintf] that occur in the sources.

    The first half of the file holds the definitions, the second half the
    lemmas and theorems about them. *)

From Stdlib Require Import String Ascii List ZArith Lia Bool.
From Stdlib.Strings Require Import Byte.
From Stdlib Require Import DecimalString Permutation.
Import ListNotations.
Local Open Scope list_scope.
Local Open Scope string_scope.

(* ===================================================================== *)
(** * Part I: definitions                                                  *)
(* ===================================================================== *)

(** ** Go runtime and standard library *)

Module Go.

(** Go [error] values.  [errorString] is what [errors.New] and a
    [fmt.Errorf] without [%w] build; [wrapError] is a [fmt.Errorf] with
    [%w]; [PathError] is [*fs.PathError].  The two sentinels the sources
    compare against, [terminal.InterruptErr] and [os.ErrNotExist], are
    constructors of their own: Go compares them by identity. *)
Inductive error : Type :=
| errorString (s : string)
| wrapError (msg : string) (err : error)
| PathError (Op Path : string) (Err : error)
| InterruptErr
| ErrNotExist.

(** [err.Error()] *)
Fixpoint Error (e : error) : string :=
  match e with
  | errorString s => s
  | wrapError msg _ => msg
  | PathError op path err => op ++ " " ++ path ++ ": " ++ Error err
  | InterruptErr => "interrupt"
  | ErrNotExist => "file does not exist"
  end.

(** [err == target] on the comparable error values above *)
Fixpoint error_eqb (a b : error) : bool :=
  match a, b with
  | errorString s, errorString t => String.eqb s t
  | wrapError m e, wrapError n f => String.eqb m n && error_eqb e f
  | PathError o p e, PathError o' p' f =>
      String.eqb o o' && String.eqb p p' && error_eqb e f
  | InterruptErr, InterruptErr => true
  | ErrNotExist, ErrNotExist => true
  | _, _ => false
  end.

(** [errors.Is(err, target)]: [err] or an error it wraps is [target].
    A nil [err] is [None]. *)
Fixpoint errors_Is_chain (e target : error) : bool :=
  error_eqb e target ||
  match e with
  | wrapError _ inner => errors_Is_chain inner target
  | PathError _ _ inner => errors_Is_chain inner target
  | _ => false
  end.

Definition errors_Is (err : option error) (target : error) : bool :=
  match err with
  | None => false
  | Some e => errors_Is_chain e target
  end.

(** [fmt.Errorf(format, ...)] without [%w], the message already rendered *)
Definition Errorf (msg : string) : error := errorString msg.

(** [len(s)] of a Go string: its number of bytes *)
Definition len (s : string) : nat := String.length s.

(** [strings.HasPrefix(s, p)] *)
Fixpoint HasPrefix (s p : string) {struct p} : bool :=
  match p, s with
  | EmptyString, _ => true
  | String c p', String d s' => Ascii.eqb c d && HasPrefix s' p'
  | String _ _, EmptyString => false
  end.

(** [strings.Contains(s, substr)] *)
Fixpoint Contains (s substr : string) : bool :=
  HasPrefix s substr ||
  match s with
  | EmptyString => false
  | String _ s' => Contains s' substr
  end.

(** [s < t] on Go strings: byte-wise lexicographic order *)
Fixpoint string_lt (s t : string) : bool :=
  match s, t with
  | _, EmptyString => false
  | EmptyString, String _ _ => true
  | String a s', String b t' =>
      let x := nat_of_ascii a in
      let y := nat_of_ascii b in
      if Nat.ltb x y then true
      else if Nat.ltb y x then false
      else string_lt s' t'
  end.

(** A run of [n] zero digits *)
Fixpoint zeros (n : nat) : string :=
  match n with
  | O => ""
  | S k => String "0" (zeros k)
  end.

(** The decimal digits of a natural number, as [%d] prints them *)
Definition digits (n : N) : string := NilZero.string_of_uint (N.to_uint n).

(** The verb [%02d] of [fmt.Sprintf] on an [int]: at least two
    characters, padded with zeros on the left; the sign of a negative
    number counts for the width and comes before the padding. *)
Definition fmt_02d (z : Z) : string :=
  if (z <? 0)%Z then
    let d := digits (Z.to_N (- z)) in
    "-" ++ zeros (1 - String.length d) ++ d
  else
    let d := digits (Z.to_N z) in
    zeros (2 - String.length d) ++ d.

End Go.

(** ** internal/download/ipsw_me.go *)

Module IpswMe.
Import Go.

Definition ipswMeAPI : string := "https://api.ipsw.me/v4/".

(** [time.Time], kept opaque: no operation of the file looks inside. *)
Definition time_Time : Type := Z.

(** [type IPSW struct] *)
Module IPSW.
Record t : Type := mk {
  Identifier : string;
  Version : string;
  BuildID : string;
  SHA1 : string;
  MD5 : string;
  FileSize : Z;
  URL : string;
  ReleaseDate : time_Time;
  UploadDate : time_Time;
  Signed : bool
}.
(** The zero value [IPSW{}] *)
Definition zero : t := mk "" "" "" "" "" 0%Z "" 0%Z 0%Z false.
End IPSW.

(** [type Device struct] *)
Module Device.
Record t : Type := mk {
  Name : string;
  Identifier : string;
  BoardConfig : string;
  Platform : string;
  CpID : Z;
  BdID : Z;
  Firmwares : list IPSW.t
}.
(** The zero value [Device{}] *)
Definition zero : t := mk "" "" "" "" 0%Z 0%Z [].
End Device.

(** [*http.Response], as far as the file reads it.  [Body] holds what
    [io.ReadAll(res.Body)] returns: the bytes read and the read error. *)
Record Response : Type := {
  StatusCode : Z;
  Status : string;
  Body : list byte * option error
}.

Definition http_StatusOK : Z := 200.

(** The collaborators outside the package: the network with the remote
    firmware-index service behind it ([http.Get], with a state [Net] that
    a request may change), and [json.Unmarshal] at the four types it is
    used at.  [json.Unmarshal(body, &v)] takes the value [v] holds and
    returns the value it holds afterwards, with the error. *)
Record Env : Type := {
  Net : Type;
  http_Get : string -> Net -> (error + Response) * Net;
  Unmarshal_Devices : list byte -> list Device.t -> list Device.t * option error;
  Unmarshal_Device : list byte -> Device.t -> Device.t * option error;
  Unmarshal_IPSWs : list byte -> list IPSW.t -> list IPSW.t * option error;
  Unmarshal_IPSW : list byte -> IPSW.t -> IPSW.t * option error
}.

Section Client.
Context (E : Env).

(** The state a call runs in: the network, and the URLs requested so
    far, oldest first. *)
Record State : Type := {
  net : Net E;
  requests : list string
}.

Definition M (A : Type) : Type := State -> A * State.

Definition ret {A} (a : A) : M A := fun s => (a, s).

Definition bind {A B} (c : M A) (k : A -> M B) : M B :=
  fun s => let (a, s') := c s in k a s'.

Notation "x <- c ;; k" := (bind c (fun x => k))
  (at level 100, c at next level, right associativity).

(** [http.Get(url)], recorded in [requests] *)
Definition Get (url : string) : M (error + Response) :=
  fun s =>
    let (r, n) := http_Get E url (net s) in
    (r, {| net := n; requests := (requests s ++ [url])%list |}).

Definition api_status_error (res : Response) : error :=
  Errorf ("api returned status: " ++ Status res).

(** [GetAllDevices] returns a list of all devices *)
Definition GetAllDevices : M (list Device.t * option error) :=
  let devices : list Device.t := [] in
  r <- Get (ipswMeAPI ++ "devices") ;;
  match r with
  | inl err => ret (devices, Some err)
  | inr res =>
      if negb (StatusCode res =? http_StatusOK)%Z then
        ret (devices, Some (api_status_error res))
      else
        let (body, err) := Body res in
        match err with
        | Some err => ret (devices, Some err)
        | None =>
            let (devices, err) := Unmarshal_Devices E body devices in
            match err with
            | Some err => ret (devices, Some err)
            | None => ret (devices, None)
            end
        end
  end.

(** [GetDevice] returns a device from its identifier *)
Definition GetDevice (identifier : string) : M (Device.t * option error) :=
  let d := Device.zero in
  r <- Get (ipswMeAPI ++ "device" ++ "/" ++ identifier) ;;
  match r with
  | inl err => ret (d, Some err)
  | inr res =>
      if negb (StatusCode res =? http_StatusOK)%Z then
        ret (d, Some (api_status_error res))
      else
        let (body, err) := Body res in
        match err with
        | Some err => ret (d, Some err)
        | None =>
            let (d, err) := Unmarshal_Device E body d in
            match err with
            | Some err => ret (d, Some err)
            | None => ret (d, None)
            end
        end
  end.

(** [GetDeviceIPSWs] returns a device's IPSWs from its identifier.
    A nil slice is the empty list. *)
Definition GetDeviceIPSWs (identifier : string) : M (list IPSW.t * option error) :=
  r <- GetDevice identifier ;;
  let (d, err) := r in
  match err with
  | Some err => ret ([], Some err)
  | None => ret (Device.Firmwares d, None)
  end.

(** [GetAllIPSW] finds all IPSW files for a given iOS version *)
Definition GetAllIPSW (version : string) : M (list IPSW.t * option error) :=
  let ipsws : list IPSW.t := [] in
  r <- Get (ipswMeAPI ++ "ipsw/" ++ version) ;;
  match r with
  | inl err => ret (ipsws, Some err)
  | inr res =>
      if negb (StatusCode res =? http_StatusOK)%Z then
        ret ([], Some (api_status_error res))
      else
        let (body, err) := Body res in
        match err with
        | Some err => ret (ipsws, Some err)
        | None =>
            let (ipsws, err) := Unmarshal_IPSWs E body ipsws in
            match err with
            | Some err => ret (ipsws, Some err)
            | None => ret (ipsws, None)
            end
        end
  end.

(** [GetIPSW] will get an IPSW when supplied an identifier and build ID *)
Definition GetIPSW (identifier buildID : string) : M (IPSW.t * option error) :=
  let i := IPSW.zero in
  r <- Get (ipswMeAPI ++ "ipsw/" ++ identifier ++ "/" ++ buildID) ;;
  match r with
  | inl err => ret (i, Some err)
  | inr res =>
      if negb (StatusCode res =? http_StatusOK)%Z then
        ret (i, Some (api_status_error res))
      else
        let (body, err) := Body res in
        match err with
        | Some err => ret (i, Some err)
        | None =>
            let (i, err) := Unmarshal_IPSW E body i in
            match err with
            | Some err => ret (i, Some err)
            | None => ret (i, None)
            end
        end
  end.

(** The error [GetVersion] ends with when its loop runs out *)
Definition GetVersion_not_found : error := Errorf "build did not a version".

(** The loop of [GetVersion],
    [for i := len(devices) - 1; i >= 0; i--], entered with [n = i + 1]:
    [n = 0] is the loop's exit, where the function returns its last
    error.  [devices[i]] is in range throughout, so the default of
    [nth] is never read. *)
Fixpoint GetVersion_loop (n : nat) (devices : list Device.t) (buildID : string)
  : M (string * option error) :=
  match n with
  | O => ret ("", Some GetVersion_not_found)
  | S i =>
      let dev := Device.zero in
      r <- Get (ipswMeAPI ++ "device/" ++ Device.Identifier (nth i devices Device.zero)) ;;
      match r with
      | inl err => ret ("", Some err)
      | inr res =>
          if negb (StatusCode res =? http_StatusOK)%Z then
            ret ("", Some (api_status_error res))
          else
            let (body, err) := Body res in
            match err with
            | Some err => ret ("", Some err)
            | None =>
                let (dev, err) := Unmarshal_Device E body dev in
                match err with
                | Some err => ret ("", Some err)
                | None =>
                    match find (fun ipsw => IPSW.BuildID ipsw =? buildID)
                               (Device.Firmwares dev) with
                    | Some ipsw => ret (IPSW.Version ipsw, None)
                    | None => GetVersion_loop i devices buildID
                    end
                end
            end
      end
  end.

(** [GetVersion] returns the iOS version for a given build ID *)
Definition GetVersion (buildID : string) : M (string * option error) :=
  r <- GetAllDevices ;;
  let (devices, err) := r in
  match err with
  | Some err =>
      ret ("", Some (Errorf ("failed to get all devices from ipsw.me API: " ++ Error err)))
  | None => GetVersion_loop (List.length devices) devices buildID
  end.

(** The error [GetBuildID] ends with when no firmware matches *)
Definition GetBuildID_not_found (version identifier : string) : error :=
  Errorf ("no build found for version " ++ version ++ " and device " ++ identifier).

(** [GetBuildID] returns the BuildID for a given version and identifier *)
Definition GetBuildID (version identifier : string) : M (string * option error) :=
  let ipsws : list IPSW.t := [] in
  r <- Get (ipswMeAPI ++ "ipsw/" ++ version) ;;
  match r with
  | inl err => ret ("", Some err)
  | inr res =>
      if negb (StatusCode res =? http_StatusOK)%Z then
        ret ("", Some (api_status_error res))
      else
        let (body, err) := Body res in
        match err with
        | Some err => ret ("", Some err)
        | None =>
            let (ipsws, err) := Unmarshal_IPSWs E body ipsws in
            match err with
            | Some err => ret ("", Some err)
            | None =>
                match find (fun i => IPSW.Identifier i =? identifier) ipsws with
                | Some i => ret (IPSW.BuildID i, None)
                | None => ret ("", Some (GetBuildID_not_found version identifier))
                end
            end
        end
  end.

End Client.

(** *** A synthetic remote, for concrete runs

    Two devices are catalogued, [iPhone14,2] before [iPhone14,5]; both
    carry a firmware with build [19A346], under different versions.  The
    catalog itself lists the devices without their firmwares, as the
    service does.  Bodies are one-byte tokens, decoded by table. *)
Module Fixture.

Definition fw (identifier version buildID : string) : IPSW.t :=
  IPSW.mk identifier version buildID "" "" 0%Z "" 0%Z 0%Z true.

Definition early_fws : list IPSW.t :=
  [ fw "iPhone14,2" "15.1" "19B74"; fw "iPhone14,2" "15.0" "19A346" ].

Definition late_fws : list IPSW.t :=
  [ fw "iPhone14,5" "15.0.1" "19A346" ].

Definition dev (identifier : string) (fws : list IPSW.t) : Device.t :=
  Device.mk "iPhone" identifier "D63AP" "iOS" 33040%Z 12%Z fws.

Definition catalog : list Device.t :=
  [ dev "iPhone14,2" []; dev "iPhone14,5" [] ].

Definition ok (token : byte) : error + Response :=
  inr {| StatusCode := 200; Status := "200 OK"; Body := ([token], None) |}.

Definition not_found : error + Response :=
  inr {| StatusCode := 404; Status := "404 Not Found"; Body := ([], None) |}.

(** The service: the state counts the requests served. *)
Definition serve (url : string) (served : nat) : (error + Response) * nat :=
  let r :=
    if url =? "https://api.ipsw.me/v4/devices" then ok x00
    else if url =? "https://api.ipsw.me/v4/device/iPhone14,2" then ok x01
    else if url =? "https://api.ipsw.me/v4/device/iPhone14,5" then ok x02
    else if url =? "https://api.ipsw.me/v4/ipsw/15.0" then ok x03
    else not_found in
  (r, S served).

Definition syntax_error : error := errorString "unexpected end of JSON input".

Definition decode_devices (body : list byte) (v : list Device.t)
  : list Device.t * option error :=
  match body with
  | [x00] => (catalog, None)
  | _ => (v, Some syntax_error)
  end.

Definition decode_device (body : list byte) (v : Device.t)
  : Device.t * option error :=
  match body with
  | [x01] => (dev "iPhone14,2" early_fws, None)
  | [x02] => (dev "iPhone14,5" late_fws, None)
  | _ => (v, Some syntax_error)
  end.

Definition decode_ipsws (body : list byte) (v : list IPSW.t)
  : list IPSW.t * option error :=
  match body with
  | [x03] => ([fw "iPhone14,5" "15.0" "19A341"; fw "iPhone14,2" "15.0" "19A346"], None)
  | _ => (v, Some syntax_error)
  end.

Definition decode_ipsw (body : list byte) (v : IPSW.t) : IPSW.t * option error :=
  (v, Some syntax_error).

Definition env : Env :=
  {| Net := nat;
     http_Get := serve;
     Unmarshal_Devices := decode_devices;
     Unmarshal_Device := decode_device;
     Unmarshal_IPSWs := decode_ipsws;
     Unmarshal_IPSW := decode_ipsw |}.

(** The state before the first request *)
Definition start : State env := Build_State env 0%nat [].

(** The state after the catalog was fetched *)
Definition after_catalog : State env :=
  Build_State env 1%nat ["https://api.ipsw.me/v4/devices"].

(** The state after the catalog and then its last device were fetched *)
Definition after_last_device : State env :=
  Build_State env 2%nat
    ["https://api.ipsw.me/v4/devices"; "https://api.ipsw.me/v4/device/iPhone14,5"].

(** The state after the catalog and then both devices, last first, were
    fetched *)
Definition after_both_devices : State env :=
  Build_State env 3%nat
    ["https://api.ipsw.me/v4/devices";
     "https://api.ipsw.me/v4/device/iPhone14,5";
     "https://api.ipsw.me/v4/device/iPhone14,2"].

End Fixture.

(** *** The resolution of a build to a version, in the specification's words

    The catalog is enumerated in a given order, with one [GetDevice] call
    per device, until a firmware record with the build is found; its
    version is the result. *)
Section Resolve.
Context (E : Env).

Definition has_build (buildID : string) (ipsw : IPSW.t) : bool :=
  IPSW.BuildID ipsw =? buildID.

Fixpoint scan_devices (order : list Device.t) (buildID : string)
  : M E (string * option error) :=
  match order with
  | [] => ret E ("", Some GetVersion_not_found)
  | d :: rest =>
      bind E (GetDevice E (Device.Identifier d)) (fun r =>
      match r with
      | (_, Some err) => ret E ("", Some err)
      | (dev, None) =>
          match find (has_build buildID) (Device.Firmwares dev) with
          | Some ipsw => ret E (IPSW.Version ipsw, None)
          | None => scan_devices rest buildID
          end
      end)
  end.

(** Every device of [order] is fetched without error from state [s] on,
    none of them has a firmware with the build, and the state is [s']
    afterwards. *)
Fixpoint all_miss (buildID : string) (order : list Device.t) (s s' : State E) : Prop :=
  match order with
  | [] => s = s'
  | d :: rest =>
      exists dev s1,
        GetDevice E (Device.Identifier d) s = ((dev, None), s1) /\
        (forall ipsw, In ipsw (Device.Firmwares dev) -> IPSW.BuildID ipsw <> buildID) /\
        all_miss buildID rest s1 s'
  end.

(** The URL of the request [GetDevice] makes for a catalog entry *)
Definition device_url (d : Device.t) : string :=
  ipswMeAPI ++ "device/" ++ Device.Identifier d.

(** The three ways a scan of [order] from state [s] can end with result
    [r] in state [s2]. *)

(** A match: the devices before [d] are fetched and miss, [d] is fetched,
    and [ipsw] is the first of its firmwares with the build. *)
Definition scan_hit (buildID : string) (order : list Device.t)
           (s : State E) (r : string * option error) (s2 : State E) : Prop :=
  exists pre d post s' dev f1 ipsw f2,
    order = (pre ++ d :: post)%list /\
    all_miss buildID pre s s' /\
    GetDevice E (Device.Identifier d) s' = ((dev, None), s2) /\
    Device.Firmwares dev = (f1 ++ ipsw :: f2)%list /\
    IPSW.BuildID ipsw = buildID /\
    (forall x, In x f1 -> IPSW.BuildID x <> buildID) /\
    r = (IPSW.Version ipsw, None) /\
    requests E s2 = (requests E s ++ map device_url (pre ++ [d]))%list.

(** A failed fetch: the devices before [d] are fetched and miss, and the
    fetch of [d] fails with [err], which is the result. *)
Definition scan_abort (buildID : string) (order : list Device.t)
           (s : State E) (r : string * option error) (s2 : State E) : Prop :=
  exists pre d post s' dev err,
    order = (pre ++ d :: post)%list /\
    all_miss buildID pre s s' /\
    GetDevice E (Device.Identifier d) s' = ((dev, Some err), s2) /\
    r = ("", Some err) /\
    requests E s2 = (requests E s ++ map device_url (pre ++ [d]))%list.

(** No match: every device is fetched and misses. *)
Definition scan_exhausted (buildID : string) (order : list Device.t)
           (s : State E) (r : string * option error) (s2 : State E) : Prop :=
  all_miss buildID order s s2 /\
  r = ("", Some GetVersion_not_found) /\
  requests E s2 = (requests E s ++ map device_url order)%list.

End Resolve.

(** *** A remote that cannot be reached, for concrete runs *)
Module Outage.

Definition refused : error :=
  errorString "dial tcp 104.21.0.1:443: connect: connection refused".

Definition env : Env :=
  {| Net := nat;
     http_Get := fun _ attempts => (inl refused, S attempts);
     Unmarshal_Devices := Fixture.decode_devices;
     Unmarshal_Device := Fixture.decode_device;
     Unmarshal_IPSWs := Fixture.decode_ipsws;
     Unmarshal_IPSW := Fixture.decode_ipsw |}.

Definition start : State env := Build_State env 0%nat [].

End Outage.

End IpswMe.

(** ** pkg/xcode/xcode.go *)

Module Xcode.
Import Go.

(** [type DeviceTrait struct] *)
Module DeviceTrait.
Record t : Type := mk {
  DeviceTraitSetID : Z;
  PreferredArchitecture : string;
  ArtworkDeviceIdiom : string;
  ArtworkHostedIdioms : string;
  ArtworkScaleFactor : Z;
  ArtworkDeviceSubtype : Z;
  ArtworkDisplayGamut : string;
  ArtworkDynamicDisplayMode : string;
  DevicePerformanceMemoryClass : Z;
  GraphicsFeatureSetClass : string;
  GraphicsFeatureSetFallbacks : string
}.
Definition TableName (_ : t) : string := "DeviceTraits".
End DeviceTrait.

(** [type Device struct] *)
Module Device.
Record t : Type := mk {
  Target : string;
  TargetType : string;
  TargetVariant : string;
  Platform : string;
  ProductType : string;
  ProductDescription : string;
  CompatibleDeviceFallback : string;
  DeviceTrait : DeviceTrait.t;
  DeviceTraitSet : Z
}.
Definition TableName (_ : t) : string := "Devices".
End Device.

(** [type Devices []Device] *)
Definition Devices : Type := list Device.t.

(** [func (d Devices) Len() int] *)
Definition Len (d : Devices) : nat := List.length d.

(** [d[i] = x] on a slice, [i] in range *)
Fixpoint store (d : Devices) (i : nat) (x : Device.t) : Devices :=
  match d, i with
  | [], _ => []
  | _ :: rest, O => x :: rest
  | y :: rest, S k => y :: store rest k x
  end.

(** [func (d Devices) Swap(i, j int)], [d[i], d[j] = d[j], d[i]]: [None]
    is the index-out-of-range panic. *)
Definition Swap (d : Devices) (i j : nat) : option Devices :=
  match nth_error d i, nth_error d j with
  | Some di, Some dj => Some (store (store d i dj) j di)
  | _, _ => None
  end.

(** The package [internal/utils] is not among the sources at hand.  Of the
    value [utils.DeconstructDevice] returns, [Less] reads the three fields
    below, a string under [%s] and two integers under [%02d]. *)
Module utils.
Record Device : Type := {
  Family : string;
  Major : Z;
  Minor : Z
}.
End utils.

Section Ordering.
(** [utils.DeconstructDevice], a parameter of the ordering *)
Context (DeconstructDevice : string -> utils.Device).

(** [fmt.Sprintf("%s%02d%02d", dev.Family, dev.Major, dev.Minor)] for the
    deconstructed product type of a device *)
Definition sort_key (d : Device.t) : string :=
  let dev := DeconstructDevice (Device.ProductType d) in
  utils.Family dev ++ fmt_02d (utils.Major dev) ++ fmt_02d (utils.Minor dev).

(** [func (s ByProductType) Less(i, j int) bool]: [None] is the
    index-out-of-range panic of [s.Devices[i]] or [s.Devices[j]]. *)
Definition Less (s : Devices) (i j : nat) : option bool :=
  match nth_error s i, nth_error s j with
  | Some devI, Some devJ => Some (string_lt (sort_key devI) (sort_key devJ))
  | _, _ => None
  end.

(** [sort.IsSorted(ByProductType{s})] of the Go library:
    [for i := n - 1; i > 0; i-- { if data.Less(i, i-1) { return false } }].
    This is what a list is after [sort.Sort] rearranged it. *)
Fixpoint IsSorted_loop (s : Devices) (i : nat) : bool :=
  match i with
  | O => true
  | S k =>
      match Less s (S k) k with
      | Some false => IsSorted_loop s k
      | _ => false
      end
  end.

Definition IsSorted (s : Devices) : bool := IsSorted_loop s (Len s - 1).

End Ordering.

(** Modelled from the spec: [utils.DeconstructDevice] is in package
    [internal/utils], which is not among the sources.  The specification
    speaks of a product type deconstructed into a family/major/minor tuple,
    [iPhone10,1] being family [iPhone], major 10, minor 1: the family is
    what precedes the first digit, the major number the digits up to the
    comma, the minor number the digits after it. *)
Definition is_digit (c : ascii) : bool :=
  let n := nat_of_ascii c in (48 <=? n)%nat && (n <=? 57)%nat.

Fixpoint span_family (s : string) : string * string :=
  match s with
  | EmptyString => ("", "")
  | String c s' =>
      if is_digit c then ("", s)
      else let (f, rest) := span_family s' in (String c f, rest)
  end.

Fixpoint read_number (s : string) (acc : Z) : Z * string :=
  match s with
  | EmptyString => (acc, "")
  | String c s' =>
      if is_digit c
      then read_number s' (10 * acc + Z.of_nat (nat_of_ascii c - 48))%Z
      else (acc, s)
  end.

Definition DeconstructDevice (prod : string) : utils.Device :=
  let (family, rest) := span_family prod in
  let (major, rest) := read_number rest 0%Z in
  let rest := match rest with String "," r => r | _ => rest end in
  let (minor, _) := read_number rest 0%Z in
  {| utils.Family := family; utils.Major := major; utils.Minor := minor |}.

(** *** The embedded dataset *)

(** [compress/gzip] and [encoding/json] as the file uses them:
    [gzip.NewReader] on the bytes, and [json.NewDecoder(zr).Decode(&devices)]
    on the reader it returns.  Both are functions of their input. *)
Record Codec : Type := {
  Reader : Type;
  gzip_NewReader : list byte -> error + Reader;
  Decode_Devices : Reader -> list Device.t -> list Device.t * option error
}.

(** The package-level variables: [traitsData], filled at build time by
    [//go:embed data/device_traits.gz]. *)
Record Package : Type := {
  traitsData : list byte
}.

Section Dataset.
Context (C : Codec).

(** A function of the package runs on the package's variables and leaves
    them as it returns. *)
Definition M (A : Type) : Type := Package -> A * Package.

(** [GetDevices] reads the devices from embedded JSON *)
Definition GetDevices : M (list Device.t * option error) :=
  fun pkg =>
    let devices : list Device.t := [] in
    match gzip_NewReader C (traitsData pkg) with
    | inl err => (([], Some err), pkg)
    | inr zr =>
        let (devices, err) := Decode_Devices C zr devices in
        match err with
        | Some err =>
            (([], Some (wrapError
                          ("failed unmarshaling device_traits.gz data: " ++ Error err)
                          err)), pkg)
        | None => ((devices, None), pkg)
        end
    end.

Definition device_not_found : error := Errorf "device not found".

(** [GetDeviceForProd] returns the device matching a given product type.
    The result is the pointer [&device] to a copy of the record, or nil. *)
Definition GetDeviceForProd (prod : string) : M (option Device.t * option error) :=
  fun pkg =>
    let '((devices, err), pkg) := GetDevices pkg in
    match err with
    | Some err => ((None, Some err), pkg)
    | None =>
        match find (fun device => Device.ProductType device =? prod) devices with
        | Some device => ((Some device, None), pkg)
        | None => ((None, Some device_not_found), pkg)
        end
    end.

(** [GetDeviceForModel] returns the device matching a given model *)
Definition GetDeviceForModel (model : string) : M (option Device.t * option error) :=
  fun pkg =>
    let '((devices, err), pkg) := GetDevices pkg in
    match err with
    | Some err => ((None, Some err), pkg)
    | None =>
        match find (fun device => Device.Target device =? model) devices with
        | Some device => ((Some device, None), pkg)
        | None => ((None, Some device_not_found), pkg)
        end
    end.

End Dataset.

(** *** A small dataset, for concrete runs *)
Module Fixture.

Definition no_trait : DeviceTrait.t :=
  DeviceTrait.mk 0%Z "" "" "" 0%Z 0%Z "" "" 0%Z "" "".

Definition device (target prod : string) : Device.t :=
  Device.mk target "" "" "" prod "" "" no_trait 0%Z.

Definition iPhone10_1 : Device.t := device "D20AP" "iPhone10,1".
Definition iPhone9_2 : Device.t := device "D11AP" "iPhone9,2".
Definition iPad7_1 : Device.t := device "J120AP" "iPad7,1".
(** A second record with the product type of [iPhone9_2] *)
Definition iPhone9_2_dev : Device.t := device "D11DEV" "iPhone9,2".

Definition dataset : list Device.t :=
  [iPhone10_1; iPhone9_2; iPad7_1; iPhone9_2_dev].

(** The codec: the one-byte archive [x1f] unpacks and decodes to
    [dataset]; any other archive has a bad header. *)
Definition codec : Codec :=
  {| Reader := unit;
     gzip_NewReader := fun data =>
       match data with
       | [x1f] => inr tt
       | _ => inl (errorString "gzip: invalid header")
       end;
     Decode_Devices := fun _ _ => (dataset, None) |}.

Definition pkg : Package := {| traitsData := [x1f] |}.

End Fixture.

(** The exchange of positions [i] and [j] *)
Definition transpose (i j k : nat) : nat :=
  if (k =? i)%nat then j else if (k =? j)%nat then i else k.

(** The numbers [%02d] prints with two digits *)
Definition two_digits : list Z := map Z.of_nat (seq 0 100).

(** *** A dataset that cannot be read, for concrete runs *)
Module Damaged.

Definition truncated : error := errorString "unexpected EOF".

(** Every archive unpacks, and no stream decodes. *)
Definition codec : Codec :=
  {| Reader := unit;
     gzip_NewReader := fun _ => inr tt;
     Decode_Devices := fun _ v => (v, Some truncated) |}.

(** An archive the codec of [Fixture] refuses *)
Definition no_archive : Package := {| traitsData := [] |}.

End Damaged.

End Xcode.

(** ** cmd/ipsw/cmd/download/download_dev.go *)

Module DownloadDev.
Import Go.

(** The settings the command reads through [viper], one field per key. *)
Record Settings : Type := {
  verbose : bool;
  download_proxy : string;
  download_insecure : bool;
  download_skip_all : bool;
  download_resume_all : bool;
  download_restart_all : bool;
  download_remove_commas : bool;
  download_dev_watch : list string;
  download_dev_more : bool;
  download_dev_page : Z;
  download_dev_sms : bool;
  download_dev_json : bool;
  download_dev_pretty : bool;
  download_dev_output : string;
  download_dev_username : string;
  download_dev_password : string;
  download_dev_keychain : string
}.

(** [download.DevConfig] *)
Record DevConfig : Type := {
  Proxy : string;
  Insecure : bool;
  SkipAll : bool;
  ResumeAll : bool;
  RestartAll : bool;
  RemoveCommas : bool;
  PreferSMS : bool;
  PageSize : Z;
  WatchList : list string;
  Verbose : bool
}.

(** [download.DevCreds] *)
Record DevCreds : Type := {
  Username : string;
  Password : string
}.

(** [keyring.Item] *)
Record Item : Type := {
  Key : string;
  Data : list byte;
  Label : string;
  Description : string
}.

(** [keyring.Config], its callback [FilePasswordFunc] apart *)
Record Config : Type := {
  ServiceName : string;
  KeychainSynchronizable : bool;
  KeychainAccessibleWhenUnlocked : bool;
  FileDir : string
}.

(** The three kinds of [survey] prompt the command asks *)
Inductive Prompt : Type :=
| Password_prompt (Message : string)
| Input_prompt (Message : string)
| Select_prompt (Message : string) (Options : list string).

Inductive Level : Type := InfoLevel | WarnLevel | ErrorLevel.

(** The calls the command makes to its collaborators: the operating
    system, the terminal, the log, the credential vault and the portal
    session.  A vault operation carries the password the callback handed
    to the vault for it, when the vault asked for one. *)
Inductive Call : Type :=
| log_SetLevel_Debug
| os_UserHomeDir
| keyring_Open (cfg : Config)
| os_Stat (name : string)
| survey_AskOne (p : Prompt)
| log_Entry (level : Level) (msg : string)
| ring_Get (key : string) (unlocked : option (string * option error))
| ring_Set (item : Item) (unlocked : option (string * option error))
| download_NewDevPortal (cfg : DevConfig)
| app_Login (username password : string)
| app_Watch
| app_GetDownloadsAsJSON (dlType : string) (pretty : bool)
| os_WriteFile (name : string) (data : list byte) (perm : Z)
| fmt_Println (s : list byte)
| app_DownloadPrompt (dlType : string).

(** What each call returns.  [survey.AskOne] returns the answer it would
    store, or its error. *)
Definition Resp (c : Call) : Type :=
  match c with
  | log_SetLevel_Debug => unit
  | os_UserHomeDir => (string * option error)%type
  | keyring_Open _ => option error
  | os_Stat _ => option error
  | survey_AskOne _ => (error + string)%type
  | log_Entry _ _ => unit
  | ring_Get _ _ => (Item * option error)%type
  | ring_Set _ _ => option error
  | download_NewDevPortal _ => unit
  | app_Login _ _ => option error
  | app_Watch => option error
  | app_GetDownloadsAsJSON _ _ => (list byte * option error)%type
  | os_WriteFile _ _ _ => option error
  | fmt_Println _ => unit
  | app_DownloadPrompt _ => option error
  end.

Section Command.
Context {X : Type}.

(** The collaborators, over a state [X] of their own that every call may
    change.  [ring_asks] tells whether the vault, in the state it is in,
    calls [FilePasswordFunc] before its next operation, and with which
    message; the vault asks when it needs the password, never when it is
    opened.  [json.Marshal], [json.Unmarshal] and [filepath.Join] are
    functions of their arguments.  The last three fields are constants of
    package [internal/download], which are not among the sources. *)
Record Env : Type := {
  respond : forall c : Call, X -> Resp c * X;
  ring_asks : X -> option string;
  json_Marshal_DevCreds : DevCreds -> list byte * option error;
  json_Unmarshal_DevCreds : list byte -> DevCreds -> DevCreds * option error;
  filepath_Join : list string -> string;
  KeychainServiceName : string;
  VaultName : string;
  AppName : string
}.

(** The state of a run: the collaborators' state and the variable
    [keychain], which the password callback captures and assigns. *)
Record State : Type := {
  ext : X;
  keychain : string
}.

(** How a piece of the command ends: it falls through with a value, it
    returns [r] from the enclosing function, or the process exits. *)
Inductive Outcome (R A : Type) : Type :=
| Val (a : A)
| Return (r : R)
| Exit (code : Z).
Arguments Val {R A} a.
Arguments Return {R A} r.
Arguments Exit {R A} code.

(** A piece of a function that returns an [R]: from a state, an outcome,
    the state after, and the calls made, in order. *)
Definition M (R A : Type) : Type := State -> Outcome R A * State * list Call.

Definition ret {R A} (a : A) : M R A := fun w => (Val a, w, []).

Definition bind {R A B} (c : M R A) (k : A -> M R B) : M R B :=
  fun w =>
    match c w with
    | (Val a, w1, t1) =>
        match k a w1 with
        | (o, w2, t2) => (o, w2, (t1 ++ t2)%list)
        end
    | (Return r, w1, t1) => (Return r, w1, t1)
    | (Exit code, w1, t1) => (Exit code, w1, t1)
    end.

(** [return r] *)
Definition returns {R A} (r : R) : M R A := fun w => (Return r, w, []).

(** [os.Exit(code)] *)
Definition os_Exit {R A} (code : Z) : M R A := fun w => (Exit code, w, []).

(** A call of a function whose body is [body] *)
Definition func {R R'} (body : M R R) : M R' R :=
  fun w =>
    match body w with
    | (Val r, w', t) => (Val r, w', t)
    | (Return r, w', t) => (Val r, w', t)
    | (Exit code, w', t) => (Exit code, w', t)
    end.

Definition get_keychain {R} : M R string := fun w => (Val (keychain w), w, []).

Definition set_keychain {R} (s : string) : M R unit :=
  fun w => (Val tt, {| ext := ext w; keychain := s |}, []).

Context (E : Env).

(** A call to a collaborator *)
Definition call {R} (c : Call) : M R (Resp c) :=
  fun w =>
    (Val (fst (respond E c (ext w))),
     {| ext := snd (respond E c (ext w)); keychain := keychain w |},
     [c]).

Notation "x <- c ;; k" := (bind c (fun x => k))
  (at level 100, c at next level, right associativity).

(** [if err != nil { return err }] *)
Definition check (err : option error) : M (option error) unit :=
  match err with
  | Some err => returns (Some err)
  | None => ret tt
  end.

(** The lines around every [survey.AskOne(prompt, &v)] of the command:
    on [terminal.InterruptErr] it logs [Exiting...] and exits with status
    0, on another error the enclosing function returns ([failure] builds
    what it returns), and otherwise [v] holds the answer. *)
Definition AskOne {R} (p : Prompt) (failure : error -> R) : M R string :=
  r <- call (survey_AskOne p) ;;
  match r with
  | inl err =>
      if error_eqb err InterruptErr then
        _ <- call (log_Entry WarnLevel "Exiting...") ;;
        os_Exit 0
      else returns (failure err)
  | inr answer => ret answer
  end.

(** [filepath.Join(home, ".ipsw", download.VaultName)] *)
Definition vault_path (home : string) : string :=
  filepath_Join E [home; ".ipsw"; VaultName E].

Definition decrypt_message (home : string) : string :=
  "Enter a password to decrypt your credentials vault: " ++ vault_path home.

Definition encrypt_message (home : string) : string :=
  "Enter a password to encrypt your credentials to vault: " ++ vault_path home.

(** [FilePasswordFunc], the callback of the [keyring.Config] (lines
    125-144): when [keychain] is empty it looks for the vault file, asks
    for the password under the message that fits, and keeps the answer in
    [keychain]; it returns [keychain]. *)
Definition FilePasswordFunc (home : string) (msg : string)
  : M (string * option error) (string * option error) :=
  kc <- get_keychain ;;
  _ <- (if (len kc =? 0)%nat then
          let msg := decrypt_message home in
          err <- call (os_Stat (vault_path home)) ;;
          let msg := if errors_Is err ErrNotExist then encrypt_message home else msg in
          answer <- AskOne (Password_prompt msg) (fun err => ("", Some err)) ;;
          set_keychain answer
        else ret tt) ;;
  kc <- get_keychain ;;
  returns (kc, None).

(** Before an operation, the vault calls the callback if it needs its
    password. *)
Definition unlock {R} (home : string) : M R (option (string * option error)) :=
  fun w =>
    match ring_asks E (ext w) with
    | Some msg => bind (func (FilePasswordFunc home msg)) (fun r => ret (Some r)) w
    | None => ret None w
    end.

(** [ring.Get(key)] *)
Definition keyring_Get {R} (home key : string) : M R (Item * option error) :=
  unlocked <- unlock home ;;
  call (ring_Get key unlocked).

(** [ring.Set(item)] *)
Definition keyring_Set {R} (home : string) (item : Item) : M R (option error) :=
  unlocked <- unlock home ;;
  call (ring_Set item unlocked).

(** The zero value [download.DevCreds{}] *)
Definition DevCreds_zero : DevCreds := {| Username := ""; Password := "" |}.

(** Lines 163-216: the user name and password to log in with. *)
Definition credentials (home username password : string)
  : M (option error) (string * string) :=
  if (len username =? 0)%nat || (len password =? 0)%nat then
    r <- keyring_Get home (VaultName E) ;;
    let (creds, err) := r in
    match err with
    | Some err =>
        (* failed to get credentials from vault (prompt user for credentials) *)
        _ <- call (log_Entry ErrorLevel
                     ("failed to get credentials from vault: " ++ Error err)) ;;
        username <- (if (len username =? 0)%nat
                     then AskOne (Input_prompt "Please type your username:") Some
                     else ret username) ;;
        password <- (if (len password =? 0)%nat
                     then AskOne (Password_prompt "Please type your password:") Some
                     else ret password) ;;
        (* save credentials to vault *)
        let (dat, err) :=
          json_Marshal_DevCreds E {| Username := username; Password := password |} in
        match err with
        | Some err => returns (Some err)
        | None =>
            _ <- keyring_Set home {| Key := VaultName E;
                                     Data := dat;
                                     Label := AppName E;
                                     Description := "application password" |} ;;
            ret (username, password)
        end
    | None =>
        (* credentials found in vault *)
        let (dcreds, err) := json_Unmarshal_DevCreds E (Data creds) DevCreds_zero in
        match err with
        | Some err => returns (Some err)
        | None => ret (Username dcreds, Password dcreds)
        end
    end
  else ret (username, password).

(** Lines 228-246: the download type. *)
Definition download_type (more : bool) : M (option error) string :=
  if more then ret "more"
  else
    dlType <- AskOne (Select_prompt "Choose a download type:"
                        ["OSes (iOS, macOS, tvOS...)"; "More (XCode, KDKs...)"])
                     Some ;;
    if Contains dlType "More" then ret "more" else ret dlType.

(** [fmt.Sprintf("dev_portal_%s.json", dlType)] *)
Definition json_file_name (dlType : string) : string :=
  "dev_portal_" ++ dlType ++ ".json".

(** Lines 248-266: the listing as JSON, to a file or to the standard
    output, or the interactive download. *)
Definition deliver (asJSON prettyJSON : bool) (output dlType : string)
  : M (option error) unit :=
  if asJSON then
    r <- call (app_GetDownloadsAsJSON dlType prettyJSON) ;;
    let (dat, err) := r in
    match err with
    | Some err => returns (Some err)
    | None =>
        if (0 <? len output)%nat then
          let fpath := filepath_Join E [output; json_file_name dlType] in
          _ <- call (log_Entry InfoLevel ("Creating " ++ fpath)) ;;
          err <- call (os_WriteFile fpath dat 432 (* 0660 *)) ;;
          check err
        else call (fmt_Println dat)
    end
  else
    err <- call (app_DownloadPrompt dlType) ;;
    check err.

Definition vault_config (home : string) : Config :=
  {| ServiceName := KeychainServiceName E;
     KeychainSynchronizable := false;
     KeychainAccessibleWhenUnlocked := true;
     FileDir := filepath_Join E [home; ".ipsw"] |}.

Definition portal_config (S : Settings) : DevConfig :=
  {| Proxy := download_proxy S;
     Insecure := download_insecure S;
     SkipAll := download_skip_all S;
     ResumeAll := download_resume_all S;
     RestartAll := download_restart_all S;
     RemoveCommas := download_remove_commas S;
     PreferSMS := download_dev_sms S;
     PageSize := download_dev_page S;
     WatchList := download_dev_watch S;
     Verbose := verbose S |}.

(** Lines 81-148: the log level, the settings, the home directory, and
    the credential vault, opened with [FilePasswordFunc] as its callback.
    The result is [home], which the callback captures. *)
Definition open_vault (S : Settings) : M (option error) string :=
  _ <- (if verbose S then call log_SetLevel_Debug else ret tt) ;;
  _ <- set_keychain (download_dev_keychain S) ;;
  r <- call os_UserHomeDir ;;
  let (home, err) := r in
  _ <- check err ;;
  (* create credential vault (if it doesn't exist) *)
  err <- call (keyring_Open (vault_config home)) ;;
  _ <- match err with
       | Some err => returns (Some (Errorf ("failed to open keyring: " ++ Error err)))
       | None => ret tt
       end ;;
  ret home.

(** Lines 222-226: [if len(watchList) > 0] *)
Definition watch (watchList : list string) : M (option error) unit :=
  if (0 <? List.length watchList)%nat then
    err <- call app_Watch ;;
    check err
  else ret tt.

(** Lines 222-267: what the command does once logged in. *)
Definition after_login (S : Settings) : M (option error) unit :=
  _ <- watch (download_dev_watch S) ;;
  dlType <- download_type (download_dev_more S) ;;
  _ <- deliver (download_dev_json S) (download_dev_pretty S)
               (download_dev_output S) dlType ;;
  returns None.

(** [devCmd.RunE] *)
Definition RunE (S : Settings) : M (option error) unit :=
  let username := download_dev_username S in
  let password := download_dev_password S in
  home <- open_vault S ;;
  _ <- call (download_NewDevPortal (portal_config S)) ;;
  up <- credentials home username password ;;
  let (username, password) := up in
  err <- call (app_Login username password) ;;
  _ <- check err ;;
  after_login S.

(** The collaborators [E], with what [ring.Set] returns passed through
    [f]; the collaborators' state changes as under [E]. *)
Definition mask_Set (f : option error -> option error) : Env :=
  {| respond := fun c =>
       match c as c0 return X -> Resp c0 * X with
       | ring_Set item unlocked => fun x =>
           (f (fst (respond E (ring_Set item unlocked) x)),
            snd (respond E (ring_Set item unlocked) x))
       | c0 => respond E c0
       end;
     ring_asks := ring_asks E;
     json_Marshal_DevCreds := json_Marshal_DevCreds E;
     json_Unmarshal_DevCreds := json_Unmarshal_DevCreds E;
     filepath_Join := filepath_Join E;
     KeychainServiceName := KeychainServiceName E;
     VaultName := VaultName E;
     AppName := AppName E |}.

End Command.

Arguments Env X : clear implicits.
Arguments State X : clear implicits.
Arguments M X R A : clear implicits.
Arguments Val {R A} a.
Arguments Return {R A} r.
Arguments Exit {R A} code.

(** *** Properties of runs, for the specification *)

Section Properties.
Context {X : Type}.

(** Whatever state it starts in, the calls a piece makes satisfy [P]. *)
Definition emits {R A} (P : list Call -> Prop) (c : M X R A) : Prop :=
  forall w, P (snd (c w)).

(** The calls made before the home directory is asked for *)
Definition level_calls (S : Settings) : list Call :=
  if verbose S then [log_SetLevel_Debug] else [].

(** What a call may be when user name and password are configured: no
    vault operation, none of the callback's calls, no prompt for the
    credentials, and a login only with the configured pair. *)
Definition preseeded_call (username password : string) (c : Call) : Prop :=
  match c with
  | ring_Get _ _ | ring_Set _ _ | os_Stat _ => False
  | survey_AskOne (Password_prompt _) | survey_AskOne (Input_prompt _) => False
  | app_Login u p => u = username /\ p = password
  | _ => True
  end.

Definition is_Stat (c : Call) : bool :=
  match c with os_Stat _ => true | _ => false end.

Definition is_Set (c : Call) : bool :=
  match c with ring_Set _ _ => true | _ => false end.

(** What follows the password prompt of the callback: the vault operation
    that asked for the password, or the log entry before the exit on an
    interrupt. *)
Definition within_vault_operation (c : Call) : bool :=
  match c with
  | ring_Get _ (Some _) | ring_Set _ (Some _) => true
  | log_Entry WarnLevel _ => true
  | _ => false
  end.

Definition starts_with_prompt (t : list Call) : bool :=
  match t with
  | survey_AskOne (Password_prompt _) :: c :: _ => within_vault_operation c
  | _ => false
  end.

(** Every look for the vault file is followed at once by a password
    prompt, itself followed by that vault operation or exit. *)
Fixpoint at_prompt_time (t : list Call) : bool :=
  match t with
  | [] => true
  | os_Stat _ :: rest => starts_with_prompt rest && at_prompt_time rest
  | _ :: rest => at_prompt_time rest
  end.

(** A [Set] on the vault is the last call of a piece, if it makes one,
    and the piece then yields the user name and password whose encoding is
    the data of the item. *)
Fixpoint saved_last (marshal : DevCreds -> list byte * option error)
         {R} (o : Outcome R (string * string)) (t : list Call) : Prop :=
  match t with
  | [] => True
  | ring_Set item _ :: rest =>
      rest = [] /\
      match o with
      | Val (u, p) => Data item = fst (marshal {| Username := u; Password := p |})
      | _ => False
      end
  | _ :: rest => saved_last marshal o rest
  end.

(** Every [Set] on the vault is followed at once by the login with the
    user name and password whose encoding is the data of the item. *)
Fixpoint saved_then_login (marshal : DevCreds -> list byte * option error)
         (t : list Call) : Prop :=
  match t with
  | [] => True
  | ring_Set item _ :: rest =>
      match rest with
      | app_Login u p :: _ =>
          Data item = fst (marshal {| Username := u; Password := p |})
      | _ => False
      end /\ saved_then_login marshal rest
  | _ :: rest => saved_then_login marshal rest
  end.

(** The statement that a failed [Set] is reported: if a run calls [Set]
    on the vault and [Set] fails, whatever state the vault is in, then the
    run logs in all the same and the log is given a warning. *)
Definition failed_Set_is_reported (E : Env X) (S : Settings) (w : State X) : Prop :=
  forall item unlocked,
    In (ring_Set item unlocked) (snd (RunE E S w)) ->
    (forall x, fst (respond E (ring_Set item unlocked) x) <> None) ->
    (exists u p, In (app_Login u p) (snd (RunE E S w))) /\
    (exists msg, In (log_Entry WarnLevel msg) (snd (RunE E S w))).

End Properties.

(** *** A scripted set of collaborators, for concrete runs

    The state tells whether the vault file exists.  The vault always asks
    for its password, never holds the credentials, and cannot be written:
    [ring.Get] fails with the key-not-found error and [ring.Set] with a
    permission error.  The user answers every prompt: the vault password
    [hunter2], the account [alice] with password [s3cret], and the first
    entry of the download-type menu. *)
Module Fixture.

Definition key_not_found : error :=
  errorString "The specified item could not be found in the keyring".

Definition cannot_write : error :=
  errorString "open /home/alice/.ipsw/ipsw-vault: permission denied".

Definition Item_zero : Item :=
  {| Key := ""; Data := []; Label := ""; Description := "" |}.

Definition answer (p : Prompt) : string :=
  match p with
  | Password_prompt msg =>
      if HasPrefix msg "Please type your password" then "s3cret" else "hunter2"
  | Input_prompt _ => "alice"
  | Select_prompt _ options => hd "" options
  end.

Definition script (c : Call) (vault_exists : bool) : Resp c * bool :=
  match c as c0 return Resp c0 * bool with
  | log_SetLevel_Debug => (tt, vault_exists)
  | os_UserHomeDir => (("/home/alice", None), vault_exists)
  | keyring_Open _ => (None, vault_exists)
  | os_Stat name =>
      (if vault_exists then None else Some (PathError "stat" name ErrNotExist),
       vault_exists)
  | survey_AskOne p => (inr (answer p), vault_exists)
  | log_Entry _ _ => (tt, vault_exists)
  | ring_Get _ _ => ((Item_zero, Some key_not_found), vault_exists)
  | ring_Set _ _ => (Some cannot_write, vault_exists)
  | download_NewDevPortal _ => (tt, vault_exists)
  | app_Login _ _ => (None, vault_exists)
  | app_Watch => (None, vault_exists)
  | app_GetDownloadsAsJSON _ _ => (([x5b; x5d], None), vault_exists)
  | os_WriteFile _ _ _ => (None, vault_exists)
  | fmt_Println _ => (tt, vault_exists)
  | app_DownloadPrompt _ => (None, vault_exists)
  end.

(** A stand-in for the JSON encoding of the credentials *)
Definition marshal (creds : DevCreds) : list byte * option error :=
  (list_byte_of_string (Username creds ++ ":" ++ Password creds), None).

Definition unmarshal (data : list byte) (v : DevCreds) : DevCreds * option error :=
  (v, Some (errorString "unexpected end of JSON input")).

Definition join (elem : list string) : string := String.concat "/" elem.

Definition env : Env bool :=
  {| respond := script;
     ring_asks := fun _ => Some "Enter passphrase to unlock";
     json_Marshal_DevCreds := marshal;
     json_Unmarshal_DevCreds := unmarshal;
     filepath_Join := join;
     KeychainServiceName := "ipsw";
     VaultName := "ipsw-vault";
     AppName := "io.blacktop.ipsw" |}.

(** No credentials and no vault password are configured; the listing of
    the [more] partition goes as JSON into directory [out]. *)
Definition first_run : Settings :=
  {| verbose := false;
     download_proxy := "";
     download_insecure := false;
     download_skip_all := false;
     download_resume_all := false;
     download_restart_all := false;
     download_remove_commas := false;
     download_dev_watch := [];
     download_dev_more := true;
     download_dev_page := 20;
     download_dev_sms := false;
     download_dev_json := true;
     download_dev_pretty := false;
     download_dev_output := "out";
     download_dev_username := "";
     download_dev_password := "";
     download_dev_keychain := "" |}.

(** User name and password are configured; the download type is chosen
    from the menu, and the listing goes as JSON into directory [out]. *)
Definition preseeded : Settings :=
  {| verbose := false;
     download_proxy := "";
     download_insecure := false;
     download_skip_all := false;
     download_resume_all := false;
     download_restart_all := false;
     download_remove_commas := false;
     download_dev_watch := [];
     download_dev_more := false;
     download_dev_page := 20;
     download_dev_sms := false;
     download_dev_json := true;
     download_dev_pretty := false;
     download_dev_output := "out";
     download_dev_username := "alice";
     download_dev_password := "s3cret";
     download_dev_keychain := "" |}.

(** The state a run starts in: no vault file yet, or one *)
Definition no_vault : State bool := {| ext := false; keychain := "" |}.
Definition with_vault : State bool := {| ext := true; keychain := "" |}.

(** The item the first run tries to save *)
Definition saved_item : Item :=
  {| Key := "ipsw-vault";
     Data := list_byte_of_string "alice:s3cret";
     Label := "io.blacktop.ipsw";
     Description := "application password" |}.

End Fixture.

(** *** Further properties of runs *)

Section Endings.
Context {X : Type}.

(** The outcome of a piece without the value it falls through with *)
Definition forget {R A} (o : Outcome R A) : Outcome R unit :=
  match o with
  | Val _ => Val tt
  | Return r => Return r
  | Exit code => Exit code
  end.

(** Whatever state it starts in, the way a piece ends and the calls it
    makes satisfy [Q]. *)
Definition ends {R A} (Q : Outcome R unit -> list Call -> Prop) (c : M X R A) : Prop :=
  forall w, Q (forget (fst (fst (c w)))) (snd (c w)).

(** The last calls are a prompt and the log entry [Exiting...]. *)
Definition warned_exit (t : list Call) : Prop :=
  exists pre p,
    t = (pre ++ [survey_AskOne p; log_Entry WarnLevel "Exiting..."])%list.

(** If the process exits, it does so with status 0, right after a prompt
    and the log entry [Exiting...]. *)
Definition exits_after_interrupt {R} (o : Outcome R unit) (t : list Call) : Prop :=
  match o with
  | Exit code => code = 0%Z /\ warned_exit t
  | _ => True
  end.

(** The calls of the command that come after the login in its text *)
Definition follows_login (c : Call) : bool :=
  match c with
  | app_Watch | app_GetDownloadsAsJSON _ _ | app_DownloadPrompt _ => true
  | os_WriteFile _ _ _ | fmt_Println _ => true
  | survey_AskOne (Select_prompt _ _) => true
  | log_Entry InfoLevel _ => true
  | _ => false
  end.

(** The run does not end well, and makes none of the calls that come
    after the login. *)
Definition stops_at_login (o : Outcome (option error) unit) (t : list Call) : Prop :=
  o <> Return None /\ Forall (fun c => follows_login c = false) t.

(** The calls of the part of the command before the login: the log
    level, the home directory, the vault (opening it, the look for its
    file, the prompt for its password, [Get] and [Set]), the making of
    the portal session, the prompts for user name and password, and the
    warning and error entries of the log. *)
Definition precedes_login (c : Call) : bool :=
  match c with
  | log_SetLevel_Debug | os_UserHomeDir | keyring_Open _ | os_Stat _ => true
  | ring_Get _ _ | ring_Set _ _ => true
  | download_NewDevPortal _ => true
  | survey_AskOne (Password_prompt _) | survey_AskOne (Input_prompt _) => true
  | log_Entry WarnLevel _ | log_Entry ErrorLevel _ => true
  | _ => false
  end.

(** The calls of the part of the command after the login: the watch, the
    menu of download types, the listing, the file, the output, the
    download, and the info and warning entries of the log. *)
Definition succeeds_login (c : Call) : bool :=
  match c with
  | app_Watch | app_GetDownloadsAsJSON _ _ | app_DownloadPrompt _ => true
  | os_WriteFile _ _ _ | fmt_Println _ => true
  | survey_AskOne (Select_prompt _ _) => true
  | log_Entry InfoLevel _ | log_Entry WarnLevel _ => true
  | _ => false
  end.

Definition before_login (c : Call) : Prop := precedes_login c = true.

Definition after_the_login (c : Call) : Prop := succeeds_login c = true.

(** The calls are some of the part before the login, then possibly one
    login followed by calls of the part after it. *)
Definition login_shape (t : list Call) : Prop :=
  exists pre post,
    t = (pre ++ post)%list /\
    Forall before_login pre /\
    (post = [] \/
     exists u p rest,
       post = app_Login u p :: rest /\ Forall after_the_login rest).

(** The calls have that shape; a piece that falls through has not logged
    in yet, and a run that ends well has. *)
Definition login_once (o : Outcome (option error) unit) (t : list Call) : Prop :=
  login_shape t /\
  (o = Val tt -> Forall before_login t) /\
  (o = Return None -> exists u p, In (app_Login u p) t).

(** The calls that hand the listing or the download to the user *)
Definition is_delivery (c : Call) : bool :=
  match c with
  | os_WriteFile _ _ _ | fmt_Println _ | app_DownloadPrompt _ => true
  | _ => false
  end.

Definition deliveries (t : list Call) : nat := List.length (filter is_delivery t).

Definition delivers_once {R} (o : Outcome R unit) (t : list Call) : Prop :=
  deliveries t <= 1 /\ (o = Val tt -> deliveries t = 0).

(** What the settings allow a delivery call to be: a file only for JSON
    with an output directory, under the name built from it, with mode
    0660; the standard output only for JSON without one; the interactive
    download only without JSON. *)
Definition delivery_as_set (E : Env X) (S : Settings) (c : Call) : Prop :=
  match c with
  | app_GetDownloadsAsJSON _ pretty =>
      download_dev_json S = true /\ pretty = download_dev_pretty S
  | os_WriteFile name _ perm =>
      download_dev_json S = true /\ download_dev_output S <> "" /\ perm = 432%Z /\
      exists dlType,
        name = filepath_Join E [download_dev_output S; json_file_name dlType]
  | fmt_Println _ => download_dev_json S = true /\ download_dev_output S = ""
  | app_DownloadPrompt _ => download_dev_json S = false
  | _ => True
  end.

(** What the settings allow an optional call to be: the log level is
    raised only for [verbose], the user is asked only for what is not
    configured (user name, account password, download type), the vault
    is consulted only when one of the credentials is missing, and the
    watch starts only with a watch list. *)
Definition as_configured (S : Settings) (c : Call) : Prop :=
  match c with
  | log_SetLevel_Debug => verbose S = true
  | survey_AskOne (Input_prompt _) => download_dev_username S = ""
  | survey_AskOne (Password_prompt msg) =>
      msg = "Please type your password:" -> download_dev_password S = ""
  | survey_AskOne (Select_prompt _ _) => download_dev_more S = false
  | ring_Get _ _ | ring_Set _ _ | log_Entry ErrorLevel _ =>
      download_dev_username S = "" \/ download_dev_password S = ""
  | app_Watch => download_dev_watch S <> []
  | _ => True
  end.

(** The state keeps the vault password [password] in [keychain]. *)
Definition holds_password (password : string) (w : State X) : Prop :=
  keychain w = password.

(** From a state with [I], the calls satisfy [P] and the state after has
    [I] again. *)
Definition keeps {R A} (I : State X -> Prop) (P : list Call -> Prop) (c : M X R A)
  : Prop :=
  forall w, I w -> P (snd (c w)) /\ I (snd (fst (c w))).

(** What a call may be when the vault password is configured: no look
    for the vault file, no prompt but those for the account and the
    menu, and a vault operation that was asked for the password got the
    configured one. *)
Definition with_vault_password (password : string) (c : Call) : Prop :=
  match c with
  | os_Stat _ => False
  | survey_AskOne (Password_prompt msg) => msg = "Please type your password:"
  | ring_Get _ (Some r) | ring_Set _ (Some r) => r = (password, None)
  | _ => True
  end.

(** A call that is not the login *)
Definition not_Login (c : Call) : Prop :=
  match c with app_Login _ _ => False | _ => True end.

(** What a call may be when the vault holds the credentials [creds]: no
    prompt for user name or account password, no complaint about the
    vault, no [Set], and a login only with [creds]. *)
Definition from_vault (creds : DevCreds) (c : Call) : Prop :=
  match c with
  | ring_Set _ _ => False
  | survey_AskOne (Input_prompt _) => False
  | survey_AskOne (Password_prompt msg) => msg <> "Please type your password:"
  | log_Entry ErrorLevel _ => False
  | app_Login u p => u = Username creds /\ p = Password creds
  | _ => True
  end.

End Endings.

(** *** More scripted collaborators *)
Module Scripts.

(** As [Fixture.env], with every prompt interrupted. *)
Definition interrupted : Env bool :=
  {| respond := fun c =>
       match c as c0 return bool -> Resp c0 * bool with
       | survey_AskOne _ => fun x => (inl InterruptErr, x)
       | c0 => Fixture.script c0
       end;
     ring_asks := ring_asks Fixture.env;
     json_Marshal_DevCreds := Fixture.marshal;
     json_Unmarshal_DevCreds := Fixture.unmarshal;
     filepath_Join := Fixture.join;
     KeychainServiceName := "ipsw";
     VaultName := "ipsw-vault";
     AppName := "io.blacktop.ipsw" |}.

Definition bad_login : error := errorString "invalid username or password".

(** As [Fixture.env], with every login rejected. *)
Definition rejected : Env bool :=
  {| respond := fun c =>
       match c as c0 return bool -> Resp c0 * bool with
       | app_Login _ _ => fun x => (Some bad_login, x)
       | c0 => Fixture.script c0
       end;
     ring_asks := ring_asks Fixture.env;
     json_Marshal_DevCreds := Fixture.marshal;
     json_Unmarshal_DevCreds := Fixture.unmarshal;
     filepath_Join := Fixture.join;
     KeychainServiceName := "ipsw";
     VaultName := "ipsw-vault";
     AppName := "io.blacktop.ipsw" |}.

Definition stored_item : Item :=
  {| Key := "ipsw-vault";
     Data := list_byte_of_string "bob:pa55";
     Label := "io.blacktop.ipsw";
     Description := "application password" |}.

Definition stored_creds : DevCreds := {| Username := "bob"; Password := "pa55" |}.

(** As [Fixture.env], with a vault that holds the credentials of [bob]. *)
Definition stocked : Env bool :=
  {| respond := fun c =>
       match c as c0 return bool -> Resp c0 * bool with
       | ring_Get _ _ => fun x => ((stored_item, None), x)
       | c0 => Fixture.script c0
       end;
     ring_asks := ring_asks Fixture.env;
     json_Marshal_DevCreds := Fixture.marshal;
     json_Unmarshal_DevCreds := fun _ _ => (stored_creds, None);
     filepath_Join := Fixture.join;
     KeychainServiceName := "ipsw";
     VaultName := "ipsw-vault";
     AppName := "io.blacktop.ipsw" |}.

Definition no_home : error := errorString "$HOME is not defined".

(** As [Fixture.env], without a home directory. *)
Definition homeless : Env bool :=
  {| respond := fun c =>
       match c as c0 return bool -> Resp c0 * bool with
       | os_UserHomeDir => fun x => (("", Some no_home), x)
       | c0 => Fixture.script c0
       end;
     ring_asks := ring_asks Fixture.env;
     json_Marshal_DevCreds := Fixture.marshal;
     json_Unmarshal_DevCreds := Fixture.unmarshal;
     filepath_Join := Fixture.join;
     KeychainServiceName := "ipsw";
     VaultName := "ipsw-vault";
     AppName := "io.blacktop.ipsw" |}.

Definition no_directory : error :=
  errorString "mkdir /home/alice/.ipsw: permission denied".

(** As [Fixture.env], with a vault that cannot be opened. *)
Definition unopened : Env bool :=
  {| respond := fun c =>
       match c as c0 return bool -> Resp c0 * bool with
       | keyring_Open _ => fun x => (Some no_directory, x)
       | c0 => Fixture.script c0
       end;
     ring_asks := ring_asks Fixture.env;
     json_Marshal_DevCreds := Fixture.marshal;
     json_Unmarshal_DevCreds := Fixture.unmarshal;
     filepath_Join := Fixture.join;
     KeychainServiceName := "ipsw";
     VaultName := "ipsw-vault";
     AppName := "io.blacktop.ipsw" |}.

(** The settings of [Fixture.first_run], with the vault password
    configured and only the user name missing. *)
Definition with_keychain : Settings :=
  {| verbose := true;
     download_proxy := "";
     download_insecure := false;
     download_skip_all := false;
     download_resume_all := false;
     download_restart_all := false;
     download_remove_commas := false;
     download_dev_watch := ["os"];
     download_dev_more := true;
     download_dev_page := 20;
     download_dev_sms := false;
     download_dev_json := false;
     download_dev_pretty := false;
     download_dev_output := "";
     download_dev_username := "";
     download_dev_password := "s3cret";
     download_dev_keychain := "hunter2" |}.

End Scripts.

End DownloadDev.

(* ===================================================================== *)
(** * Part II: lemmas and theorems                                         *)
(* ===================================================================== *)

(** ** Facts about the Go library functions *)

Module GoFacts.
Import Go.

Lemma HasPrefix_app (p s : string) : HasPrefix (p ++ s) p = true.
Proof.
  induction p as [|c p IH]; simpl.
  - reflexivity.
  - rewrite Ascii.eqb_refl. exact IH.
Qed.

Lemma HasPrefix_inv (s p : string) :
  HasPrefix s p = true -> exists q, s = p ++ q.
Proof.
  revert s. induction p as [|c p IH]; intros s H; simpl in *.
  - exists s. reflexivity.
  - destruct s as [|d s]; [discriminate|].
    apply andb_true_iff in H. destruct H as [Hc Hp].
    apply Ascii.eqb_eq in Hc. subst d.
    destruct (IH _ Hp) as [q ->]. exists q. reflexivity.
Qed.

Lemma Contains_unfold (s sub : string) :
  Contains s sub =
  HasPrefix s sub || match s with EmptyString => false | String _ s' => Contains s' sub end.
Proof. destruct s; reflexivity. Qed.

(** [strings.Contains] finds every occurrence ... *)
Lemma Contains_app (a s b : string) : Contains (a ++ s ++ b) s = true.
Proof.
  induction a as [|c a IH].
  - simpl. rewrite Contains_unfold, HasPrefix_app. reflexivity.
  - change ((String c a) ++ s ++ b) with (String c (a ++ s ++ b)).
    rewrite Contains_unfold, IH. apply orb_true_r.
Qed.

(** ... and reports nothing else. *)
Lemma Contains_inv (s sub : string) :
  Contains s sub = true -> exists a b, s = a ++ sub ++ b.
Proof.
  induction s as [|c s IH]; rewrite Contains_unfold; intros H.
  - rewrite orb_false_r in H. apply HasPrefix_inv in H.
    destruct H as [q ->]. exists "", q. reflexivity.
  - apply orb_true_iff in H. destruct H as [H|H].
    + apply HasPrefix_inv in H. destruct H as [q ->]. exists "", q. reflexivity.
    + destruct (IH H) as (a & b & ->). exists (String c a), b. reflexivity.
Qed.

Lemma append_nil_r (a : string) : a ++ "" = a.
Proof. induction a as [|c a IH]; simpl; [reflexivity | rewrite IH; reflexivity]. Qed.

Lemma append_assoc (a b c : string) : (a ++ b) ++ c = a ++ b ++ c.
Proof. induction a as [|x a IH]; simpl; [reflexivity | rewrite IH; reflexivity]. Qed.

Lemma Contains_suffix (a s : string) : Contains (a ++ s) s = true.
Proof. rewrite <- (append_nil_r s) at 1. apply Contains_app. Qed.

Lemma len_zero (s : string) : (len s =? 0)%nat = true <-> s = "".
Proof.
  destruct s; simpl; split; intros H; try reflexivity; discriminate.
Qed.

End GoFacts.

(** ** Lists: the first element a test accepts *)

Module ListFacts.

Lemma find_Some_first {A} (f : A -> bool) (l : list A) (x : A) :
  find f l = Some x ->
  exists l1 l2, l = (l1 ++ x :: l2)%list /\ f x = true /\
                forall y, In y l1 -> f y = false.
Proof.
  induction l as [|a l IH]; simpl; [discriminate|].
  destruct (f a) eqn:Fa; intros H.
  - injection H as <-. exists [], l. repeat split; [assumption | intros y []].
  - destruct (IH H) as (l1 & l2 & -> & Fx & Hl1).
    exists (a :: l1), l2. repeat split; [assumption|].
    intros y [<-|Hy]; [assumption | apply Hl1, Hy].
Qed.

Lemma find_first_Some {A} (f : A -> bool) (l1 l2 : list A) (x : A) :
  f x = true -> (forall y, In y l1 -> f y = false) ->
  find f (l1 ++ x :: l2)%list = Some x.
Proof.
  intros Fx. induction l1 as [|a l1 IH]; intros H; simpl.
  - rewrite Fx. reflexivity.
  - rewrite (H a (or_introl eq_refl)). apply IH.
    intros y Hy. apply H. right. exact Hy.
Qed.

Lemma find_None_all {A} (f : A -> bool) (l : list A) :
  find f l = None <-> forall y, In y l -> f y = false.
Proof.
  split.
  - intros H y Hy. exact (find_none f l H y Hy).
  - induction l as [|a l IH]; intros H; simpl; [reflexivity|].
    rewrite (H a (or_introl eq_refl)). apply IH.
    intros y Hy. apply H. right. exact Hy.
Qed.

Lemma firstn_succ_nth {A} (d : A) (l : list A) (n : nat) :
  n < length l -> firstn (S n) l = (firstn n l ++ [nth n l d])%list.
Proof.
  revert n. induction l as [|a l IH]; intros n H; simpl in H; [lia|].
  destruct n as [|n]; [reflexivity|].
  change (firstn (S (S n)) (a :: l)) with (a :: firstn (S n) l).
  rewrite (IH n) by lia. reflexivity.
Qed.

End ListFacts.

(** ** internal/download/ipsw_me.go *)

Module IpswMeFacts.
Import Go IpswMe ListFacts.

Lemma has_build_true (buildID : string) (ipsw : IPSW.t) :
  has_build buildID ipsw = true <-> IPSW.BuildID ipsw = buildID.
Proof. unfold has_build. apply String.eqb_eq. Qed.

Lemma has_build_false (buildID : string) (ipsw : IPSW.t) :
  has_build buildID ipsw = false <-> IPSW.BuildID ipsw <> buildID.
Proof. unfold has_build. apply String.eqb_neq. Qed.

Section Client.
Context (E : Env).

(** Unfolds the monad and the request primitive in the goal. *)
Ltac run := unfold bind, ret, Get in *; simpl in *.

(** *** What one call requests *)

Lemma GetAllDevices_requests (s s' : State E) r :
  GetAllDevices E s = (r, s') ->
  requests E s' = (requests E s ++ [(ipswMeAPI ++ "devices")%string])%list.
Proof.
  unfold GetAllDevices. run.
  destruct (http_Get E _ (net E s)) as [[err|res] n]; simpl.
  - intros H. injection H as _ <-. reflexivity.
  - destruct (negb _); [intros H; injection H as _ <-; reflexivity|].
    destruct (Body res) as [body [e|]]; [intros H; injection H as _ <-; reflexivity|].
    destruct (Unmarshal_Devices E body []) as [ds [e|]];
      intros H; injection H as _ <-; reflexivity.
Qed.

Lemma GetDevice_requests (identifier : string) (s s' : State E) r :
  GetDevice E identifier s = (r, s') ->
  requests E s' = (requests E s ++ [(ipswMeAPI ++ "device/" ++ identifier)%string])%list.
Proof.
  unfold GetDevice. run.
  destruct (http_Get E _ (net E s)) as [[err|res] n]; simpl.
  - intros H. injection H as _ <-. reflexivity.
  - destruct (negb _); [intros H; injection H as _ <-; reflexivity|].
    destruct (Body res) as [body [e|]]; [intros H; injection H as _ <-; reflexivity|].
    destruct (Unmarshal_Device E body Device.zero) as [d [e|]];
      intros H; injection H as _ <-; reflexivity.
Qed.

(** *** The loop of [GetVersion] is the scan of the reversed catalog *)

(** One turn of the loop is one [GetDevice] call on [devices[i]], followed
    by the search of the fetched device's firmwares. *)
Lemma GetVersion_loop_turn (i : nat) (devices : list Device.t) (buildID : string)
      (s : State E) :
  GetVersion_loop E (S i) devices buildID s =
  match GetDevice E (Device.Identifier (nth i devices Device.zero)) s with
  | ((_, Some err), s') => (("", Some err), s')
  | ((dev, None), s') =>
      match find (has_build buildID) (Device.Firmwares dev) with
      | Some ipsw => ((IPSW.Version ipsw, None), s')
      | None => GetVersion_loop E i devices buildID s'
      end
  end.
Proof.
  unfold GetDevice. simpl. run.
  destruct (http_Get E _ (net E s)) as [[err|res] n]; simpl; [reflexivity|].
  destruct (negb _); [reflexivity|].
  destruct (Body res) as [body [e|]]; [reflexivity|].
  destruct (Unmarshal_Device E body Device.zero) as [d [e|]]; [reflexivity|].
  unfold has_build. destruct (find _ _); reflexivity.
Qed.

Lemma scan_devices_turn (d : Device.t) (rest : list Device.t) (buildID : string)
      (s : State E) :
  scan_devices E (d :: rest) buildID s =
  match GetDevice E (Device.Identifier d) s with
  | ((_, Some err), s') => (("", Some err), s')
  | ((dev, None), s') =>
      match find (has_build buildID) (Device.Firmwares dev) with
      | Some ipsw => ((IPSW.Version ipsw, None), s')
      | None => scan_devices E rest buildID s'
      end
  end.
Proof.
  simpl. unfold bind.
  destruct (GetDevice E (Device.Identifier d) s) as [[dev [e|]] s']; [reflexivity|].
  destruct (find _ _); reflexivity.
Qed.

Lemma GetVersion_loop_scan (n : nat) (devices : list Device.t) (buildID : string) :
  n <= length devices ->
  forall s, GetVersion_loop E n devices buildID s =
            scan_devices E (rev (firstn n devices)) buildID s.
Proof.
  induction n as [|i IH]; intros Hn s.
  - reflexivity.
  - rewrite (firstn_succ_nth Device.zero) by lia.
    rewrite rev_app_distr. simpl rev. simpl app.
    rewrite GetVersion_loop_turn, scan_devices_turn.
    destruct (GetDevice E _ s) as [[dev [e|]] s']; [reflexivity|].
    destruct (find _ _); [reflexivity|].
    apply IH. lia.
Qed.

(** *** The scan, case by case *)

Lemma all_miss_cons (buildID : string) (d : Device.t) (pre : list Device.t)
      (s s1 s' : State E) (dev : Device.t) :
  GetDevice E (Device.Identifier d) s = ((dev, None), s1) ->
  find (has_build buildID) (Device.Firmwares dev) = None ->
  all_miss E buildID pre s1 s' ->
  all_miss E buildID (d :: pre) s s'.
Proof.
  intros G F H. exists dev, s1. repeat split; [exact G | | exact H].
  intros ipsw Hin. apply has_build_false.
  exact (proj1 (find_None_all _ _) F ipsw Hin).
Qed.

Lemma scan_devices_cases (buildID : string) (order : list Device.t) :
  forall (s : State E) r s2,
    scan_devices E order buildID s = (r, s2) ->
    scan_hit E buildID order s r s2 \/
    scan_abort E buildID order s r s2 \/
    scan_exhausted E buildID order s r s2.
Proof.
  induction order as [|d rest IH]; intros s r s2 H.
  - right; right. simpl in H. unfold ret in H. injection H as <- <-.
    repeat split. simpl. symmetry. apply app_nil_r.
  - rewrite scan_devices_turn in H.
    destruct (GetDevice E (Device.Identifier d) s) as [[dev [e|]] s1] eqn:G.
    + right; left. injection H as <- <-.
      exists [], d, rest, s, dev, e. repeat split; try assumption.
      exact (GetDevice_requests _ _ _ _ G).
    + pose proof (GetDevice_requests _ _ _ _ G) as R1.
      destruct (find _ _) as [ipsw|] eqn:F.
      * left. injection H as <- <-.
        destruct (find_Some_first _ _ _ F) as (f1 & f2 & Hf & Hb & Hf1).
        exists [], d, rest, s, dev, f1, ipsw, f2.
        repeat split; try assumption.
        -- apply has_build_true, Hb.
        -- intros x Hx. apply has_build_false, Hf1, Hx.
      * destruct (IH _ _ _ H) as [Hit | [Ab | Ex]].
        -- left. destruct Hit as (pre & d' & post & s' & dev' & f1 & ipsw & f2 &
                                  -> & Hm & G' & Hf & Hb & Hf1 & -> & R).
           exists (d :: pre), d', post, s', dev', f1, ipsw, f2.
           repeat split; try assumption.
           ++ exact (all_miss_cons _ _ _ _ _ _ _ G F Hm).
           ++ rewrite R, R1, <- app_assoc. reflexivity.
        -- right; left. destruct Ab as (pre & d' & post & s' & dev' & err &
                                        -> & Hm & G' & -> & R).
           exists (d :: pre), d', post, s', dev', err.
           repeat split; try assumption.
           ++ exact (all_miss_cons _ _ _ _ _ _ _ G F Hm).
           ++ rewrite R, R1, <- app_assoc. reflexivity.
        -- right; right. destruct Ex as (Hm & -> & R).
           repeat split.
           ++ exact (all_miss_cons _ _ _ _ _ _ _ G F Hm).
           ++ rewrite R, R1, <- app_assoc. reflexivity.
Qed.

(** Devices that are fetched and miss are passed over. *)
Lemma scan_devices_skip (buildID : string) (pre rest : list Device.t) :
  forall s s' : State E,
    all_miss E buildID pre s s' ->
    scan_devices E (pre ++ rest) buildID s = scan_devices E rest buildID s'.
Proof.
  induction pre as [|d pre IH]; intros s s' H.
  - simpl in H. subst s'. reflexivity.
  - destruct H as (dev & s1 & G & Hmiss & Hrest).
    change ((d :: pre) ++ rest)%list with (d :: (pre ++ rest))%list.
    rewrite scan_devices_turn, G.
    replace (find (has_build buildID) (Device.Firmwares dev)) with (@None IPSW.t).
    + apply IH, Hrest.
    + symmetry. apply find_None_all. intros y Hy.
      apply has_build_false, Hmiss, Hy.
Qed.

Lemma GetVersion_scan (buildID : string) (s s1 : State E) (devices : list Device.t) :
  GetAllDevices E s = ((devices, None), s1) ->
  GetVersion E buildID s = scan_devices E (rev devices) buildID s1.
Proof.
  intros H. unfold GetVersion, bind. rewrite H.
  rewrite GetVersion_loop_scan by lia.
  rewrite firstn_all. reflexivity.
Qed.

(** C1.  [GetVersion] scans the catalog that [GetAllDevices] returned in
    reverse order, last entry first, with one [GetDevice] request per
    device scanned.  Its run is the scan of the reversed catalog, and it
    ends in exactly one of three ways: with the version of the first
    firmware carrying the build in the first device of that order that has
    one; with the error of a fetch that failed; or, only when every device
    of the catalog was fetched and none matched, with the not-found error.
    The requests made are those for a prefix of the reversed catalog.
    When the devices after an entry [d] of the catalog miss and [d] has the
    build, [d] decides the version, whatever precedes it in the catalog. *)
Theorem GetVersion_reverse_scan
        (buildID : string) (s s1 s2 : State E) (devices : list Device.t)
        (r : string * option error) :
  GetAllDevices E s = ((devices, None), s1) ->
  GetVersion E buildID s = (r, s2) ->
  scan_devices E (rev devices) buildID s1 = (r, s2) /\
  (scan_hit E buildID (rev devices) s1 r s2 \/
   scan_abort E buildID (rev devices) s1 r s2 \/
   scan_exhausted E buildID (rev devices) s1 r s2) /\
  (forall earlier d later s' dev ipsw s3,
      devices = (earlier ++ d :: later)%list ->
      all_miss E buildID (rev later) s1 s' ->
      GetDevice E (Device.Identifier d) s' = ((dev, None), s3) ->
      find (has_build buildID) (Device.Firmwares dev) = Some ipsw ->
      r = (IPSW.Version ipsw, None) /\ s2 = s3).
Proof.
  intros HA HV. rewrite (GetVersion_scan _ _ _ _ HA) in HV.
  split; [exact HV|]. split; [exact (scan_devices_cases _ _ _ _ _ HV)|].
  intros earlier d later s' dev ipsw s3 -> Hmiss G F.
  rewrite rev_app_distr in HV. simpl rev in HV. rewrite <- app_assoc in HV.
  rewrite (scan_devices_skip _ _ _ _ _ Hmiss) in HV.
  simpl app in HV. rewrite scan_devices_turn, G, F in HV.
  injection HV as <- <-. split; reflexivity.
Qed.

(** *** The direct lookups *)

(** C6.  [GetDeviceIPSWs] makes the call [GetDevice] makes and returns the
    [Firmwares] of its device, in the same order, when it succeeds, and
    its error when it fails; the state after the call is the same too. *)
Theorem GetDeviceIPSWs_projects_GetDevice (identifier : string) (s : State E) :
  (forall d s', GetDevice E identifier s = ((d, None), s') ->
                GetDeviceIPSWs E identifier s = ((Device.Firmwares d, None), s')) /\
  (forall d err s', GetDevice E identifier s = ((d, Some err), s') ->
                    GetDeviceIPSWs E identifier s = (([], Some err), s')).
Proof.
  split; intros; unfold GetDeviceIPSWs, bind; rewrite H; reflexivity.
Qed.

Lemma GetAllIPSW_ok_inv (version : string) (s s1 : State E) (ipsws : list IPSW.t) :
  GetAllIPSW E version s = ((ipsws, None), s1) ->
  exists res body,
    Get E (ipswMeAPI ++ "ipsw/" ++ version) s = (inr res, s1) /\
    (StatusCode res =? http_StatusOK)%Z = true /\
    Body res = (body, None) /\
    Unmarshal_IPSWs E body [] = (ipsws, None).
Proof.
  unfold GetAllIPSW, bind.
  destruct (Get E _ s) as [[err|res] s'] eqn:G; unfold ret; [discriminate|].
  destruct (StatusCode res =? http_StatusOK)%Z eqn:St; simpl; [|discriminate].
  destruct (Body res) as [body [e|]] eqn:B; [discriminate|].
  destruct (Unmarshal_IPSWs E body []) as [l [e|]] eqn:U; [discriminate|].
  intros H. injection H as <- <-. exists res, body. repeat split; assumption.
Qed.

Lemma Get_requests (url : string) (s s' : State E) r :
  Get E url s = (r, s') -> requests E s' = (requests E s ++ [url])%list.
Proof.
  unfold Get. destruct (http_Get E url (net E s)) as [r' n].
  intros H. injection H as _ <-. reflexivity.
Qed.

(** C7.  When the firmware list for [version] is fetched (the request and
    decoding [GetAllIPSW] makes), [GetBuildID] returns the [BuildID] of the
    first firmware of the list whose [Identifier] is the given one, and the
    not-found error when no firmware of the list has it; the list is
    fetched with a single request. *)
Theorem GetBuildID_first_match
        (version identifier : string) (s s1 : State E) (ipsws : list IPSW.t) :
  GetAllIPSW E version s = ((ipsws, None), s1) ->
  (forall f1 i f2,
      ipsws = (f1 ++ i :: f2)%list ->
      IPSW.Identifier i = identifier ->
      (forall x, In x f1 -> IPSW.Identifier x <> identifier) ->
      GetBuildID E version identifier s = ((IPSW.BuildID i, None), s1)) /\
  ((forall x, In x ipsws -> IPSW.Identifier x <> identifier) ->
   GetBuildID E version identifier s =
   (("", Some (GetBuildID_not_found version identifier)), s1)) /\
  requests E s1 = (requests E s ++ [(ipswMeAPI ++ "ipsw/" ++ version)%string])%list.
Proof.
  intros H. destruct (GetAllIPSW_ok_inv _ _ _ _ H) as (res & body & G & St & B & U).
  assert (Run : GetBuildID E version identifier s =
                match find (fun i => IPSW.Identifier i =? identifier) ipsws with
                | Some i => ((IPSW.BuildID i, None), s1)
                | None => (("", Some (GetBuildID_not_found version identifier)), s1)
                end).
  { unfold GetBuildID, bind. rewrite G, St. simpl. rewrite B, U.
    destruct (find _ _); reflexivity. }
  repeat split.
  - intros f1 i f2 -> Hi Hf1. rewrite Run, find_first_Some; [reflexivity | |].
    + apply String.eqb_eq, Hi.
    + intros y Hy. apply String.eqb_neq, Hf1, Hy.
  - intros Hall. rewrite Run.
    replace (find _ ipsws) with (@None IPSW.t); [reflexivity|].
    symmetry. apply find_None_all. intros y Hy. apply String.eqb_neq, Hall, Hy.
  - exact (Get_requests _ _ _ _ G).
Qed.

(** The not-found error of [GetBuildID] names both query parameters. *)
Lemma GetBuildID_not_found_names_query (version identifier : string) :
  Contains (Error (GetBuildID_not_found version identifier)) version = true /\
  Contains (Error (GetBuildID_not_found version identifier)) identifier = true.
Proof.
  change (Error (GetBuildID_not_found version identifier))
    with ("no build found for version " ++ version ++ " and device " ++ identifier).
  split.
  - apply GoFacts.Contains_app.
  - rewrite <- (GoFacts.append_assoc version), <- GoFacts.append_assoc.
    apply GoFacts.Contains_suffix.
Qed.

End Client.

(** *** Concrete runs against the synthetic remote *)

(** Both catalogued devices carry build [19A346]; the later catalog entry,
    [iPhone14,5], is fetched first and decides the version, and the earlier
    one is never requested. *)
Lemma GetVersion_reverse_scan_witness :
  scan_devices Fixture.env (rev Fixture.catalog) "19A346" Fixture.after_catalog
  = (("15.0.1", None), Fixture.after_last_device) /\
  (scan_hit Fixture.env "19A346" (rev Fixture.catalog) Fixture.after_catalog
            ("15.0.1", None) Fixture.after_last_device \/
   scan_abort Fixture.env "19A346" (rev Fixture.catalog) Fixture.after_catalog
              ("15.0.1", None) Fixture.after_last_device \/
   scan_exhausted Fixture.env "19A346" (rev Fixture.catalog) Fixture.after_catalog
                  ("15.0.1", None) Fixture.after_last_device) /\
  (forall earlier d later s' dev ipsw s3,
      Fixture.catalog = (earlier ++ d :: later)%list ->
      all_miss Fixture.env "19A346" (rev later) Fixture.after_catalog s' ->
      GetDevice Fixture.env (Device.Identifier d) s' = ((dev, None), s3) ->
      find (has_build "19A346") (Device.Firmwares dev) = Some ipsw ->
      ("15.0.1", @None error) = (IPSW.Version ipsw, None) /\
      Fixture.after_last_device = s3).
Proof.
  exact (GetVersion_reverse_scan Fixture.env "19A346" Fixture.start
           Fixture.after_catalog Fixture.after_last_device Fixture.catalog
           ("15.0.1", None) eq_refl eq_refl).
Defined.

(** A build only the earlier catalog entry carries is found after both
    devices were requested, last entry first. *)
Example GetVersion_earlier_device :
  GetVersion Fixture.env "19B74" Fixture.start
  = (("15.1", None), Fixture.after_both_devices).
Proof. reflexivity. Qed.

Lemma GetDeviceIPSWs_projects_GetDevice_witness :
  GetDeviceIPSWs Fixture.env "iPhone14,5" Fixture.start
  = ((Fixture.late_fws, None),
     Build_State Fixture.env 1%nat ["https://api.ipsw.me/v4/device/iPhone14,5"]).
Proof.
  exact (proj1 (GetDeviceIPSWs_projects_GetDevice Fixture.env "iPhone14,5" Fixture.start)
               (Fixture.dev "iPhone14,5" Fixture.late_fws) _ eq_refl).
Defined.

Lemma GetBuildID_first_match_witness :
  GetBuildID Fixture.env "15.0" "iPhone14,2" Fixture.start
  = (("19A346", None),
     Build_State Fixture.env 1%nat ["https://api.ipsw.me/v4/ipsw/15.0"]).
Proof.
  refine (proj1 (GetBuildID_first_match Fixture.env "15.0" "iPhone14,2" Fixture.start
                   _ _ eq_refl)
                [Fixture.fw "iPhone14,5" "15.0" "19A341"]
                (Fixture.fw "iPhone14,2" "15.0" "19A346") [] eq_refl eq_refl _).
  intros x [<-|[]]. simpl. discriminate.
Defined.

(** C4, on [GetVersion]: asked for a build no catalogued device carries,
    [GetVersion] requests the catalog and both devices and then fails with
    the fixed text [build did not a version], in which the build asked for
    does not occur. *)
Theorem GetVersion_not_found_omits_build :
  GetVersion Fixture.env "20Z999" Fixture.start
  = (("", Some GetVersion_not_found), Fixture.after_both_devices) /\
  Error GetVersion_not_found = "build did not a version" /\
  Contains (Error GetVersion_not_found) "20Z999" = false.
Proof. repeat split. Qed.

End IpswMeFacts.

(** ** pkg/xcode/xcode.go *)

Module XcodeFacts.
Import Go Xcode.

(** *** [%02d] *)

Example fmt_02d_pads : fmt_02d 9 = "09" /\ fmt_02d 0 = "00".
Proof. split; reflexivity. Qed.

Example fmt_02d_wide : fmt_02d 10 = "10" /\ fmt_02d 123 = "123".
Proof. split; reflexivity. Qed.

Example fmt_02d_negative : fmt_02d (-1) = "-1" /\ fmt_02d (-12) = "-12".
Proof. split; reflexivity. Qed.

(** Without the padding, [10] sorts before [9]; with it, [09] before [10]. *)
Example padding_matters :
  string_lt "10" "9" = true /\ string_lt (fmt_02d 9) (fmt_02d 10) = true.
Proof. split; reflexivity. Qed.

Section Ordering.
Context (DD : string -> utils.Device).

Lemma Less_key (s : Devices) (i j : nat) (devI devJ : Device.t) :
  nth_error s i = Some devI ->
  nth_error s j = Some devJ ->
  Less DD s i j = Some (string_lt (sort_key DD devI) (sort_key DD devJ)).
Proof. intros Hi Hj. unfold Less. rewrite Hi, Hj. reflexivity. Qed.

(** Three devices in sorted order: neither neighbour pair is inverted. *)
Lemma IsSorted_three (x y z : Device.t) :
  IsSorted DD [x; y; z] = true ->
  string_lt (sort_key DD y) (sort_key DD x) = false /\
  string_lt (sort_key DD z) (sort_key DD y) = false.
Proof.
  unfold IsSorted, Len. cbn [length Nat.sub IsSorted_loop Less nth_error].
  destruct (string_lt (sort_key DD z) (sort_key DD y)); [discriminate|].
  destruct (string_lt (sort_key DD y) (sort_key DD x)); [discriminate|].
  split; reflexivity.
Qed.

Lemma Permutation_three (a b c : Device.t) (s : Devices) :
  a <> b -> a <> c -> b <> c ->
  Permutation [a; b; c] s ->
  s = [a; b; c] \/ s = [a; c; b] \/ s = [b; a; c] \/
  s = [b; c; a] \/ s = [c; a; b] \/ s = [c; b; a].
Proof.
  intros Hab Hac Hbc P.
  assert (L : length s = 3%nat) by (rewrite <- (Permutation_length P); reflexivity).
  destruct s as [|x [|y [|z [|]]]]; try discriminate L.
  assert (ND : NoDup [x; y; z]).
  { apply (Permutation_NoDup P). repeat constructor; simpl; intuition congruence. }
  assert (M : forall u, In u [x; y; z] -> u = a \/ u = b \/ u = c).
  { intros u Hu. apply (Permutation_in u (Permutation_sym P)) in Hu.
    simpl in Hu. intuition congruence. }
  inversion ND as [|? ? Nx ND1]; subst. inversion ND1 as [|? ? Ny ND2]; subst.
  simpl in Nx, Ny.
  pose proof (M x (or_introl eq_refl)) as Hx.
  pose proof (M y (or_intror (or_introl eq_refl))) as Hy.
  pose proof (M z (or_intror (or_intror (or_introl eq_refl)))) as Hz.
  clear M ND ND1 ND2 P L.
  destruct Hx as [Hx|[Hx|Hx]], Hy as [Hy|[Hy|Hy]], Hz as [Hz|[Hz|Hz]];
    rewrite Hx, Hy, Hz in *;
    try (exfalso; tauto); auto 10.
Qed.

(** C5.  [Less] compares the composite keys of the two devices, the
    family followed by the major and the minor number, each printed with
    [%02d].  For devices of product types [iPhone10,1], [iPhone9,2] and
    [iPad7,1], deconstructed as their names say, the keys are
    [iPhone1001], [iPhone0902] and [iPad0701], and the one arrangement of
    the three that is sorted for [Less] is [iPad7,1], [iPhone9,2],
    [iPhone10,1]. *)
Theorem ByProductType_order (a b c : Device.t) :
  Device.ProductType a = "iPhone10,1" ->
  Device.ProductType b = "iPhone9,2" ->
  Device.ProductType c = "iPad7,1" ->
  DD "iPhone10,1" = {| utils.Family := "iPhone"; utils.Major := 10; utils.Minor := 1 |} ->
  DD "iPhone9,2" = {| utils.Family := "iPhone"; utils.Major := 9; utils.Minor := 2 |} ->
  DD "iPad7,1" = {| utils.Family := "iPad"; utils.Major := 7; utils.Minor := 1 |} ->
  (forall s i j devI devJ,
      nth_error s i = Some devI -> nth_error s j = Some devJ ->
      Less DD s i j =
      Some (string_lt
              (utils.Family (DD (Device.ProductType devI))
               ++ fmt_02d (utils.Major (DD (Device.ProductType devI)))
               ++ fmt_02d (utils.Minor (DD (Device.ProductType devI))))
              (utils.Family (DD (Device.ProductType devJ))
               ++ fmt_02d (utils.Major (DD (Device.ProductType devJ)))
               ++ fmt_02d (utils.Minor (DD (Device.ProductType devJ)))))) /\
  (sort_key DD a = "iPhone1001" /\ sort_key DD b = "iPhone0902" /\
   sort_key DD c = "iPad0701") /\
  (Less DD [a; b; c] 2 1 = Some true /\ Less DD [a; b; c] 1 0 = Some true /\
   Less DD [a; b; c] 2 0 = Some true) /\
  (forall s, Permutation [a; b; c] s -> IsSorted DD s = true -> s = [c; b; a]).
Proof.
  intros Pa Pb Pc Da Db Dc.
  assert (Ka : sort_key DD a = "iPhone1001") by (unfold sort_key; rewrite Pa, Da; reflexivity).
  assert (Kb : sort_key DD b = "iPhone0902") by (unfold sort_key; rewrite Pb, Db; reflexivity).
  assert (Kc : sort_key DD c = "iPad0701") by (unfold sort_key; rewrite Pc, Dc; reflexivity).
  split; [intros s i j devI devJ Hi Hj; exact (Less_key s i j devI devJ Hi Hj)|].
  split; [auto|].
  split.
  { unfold Less. cbn [nth_error]. rewrite Ka, Kb, Kc. repeat split. }
  intros s P Sorted.
  assert (Hab : a <> b) by (intros ->; rewrite Pa in Pb; discriminate).
  assert (Hac : a <> c) by (intros ->; rewrite Pa in Pc; discriminate).
  assert (Hbc : b <> c) by (intros ->; rewrite Pb in Pc; discriminate).
  destruct (Permutation_three a b c s Hab Hac Hbc P)
    as [->|[->|[->|[->|[->| ->]]]]];
    try reflexivity;
    apply IsSorted_three in Sorted; rewrite ?Ka, ?Kb, ?Kc in Sorted;
    destruct Sorted as [S1 S2]; vm_compute in S1, S2; discriminate.
Qed.

End Ordering.

(** The three product types of the specification, under the deconstruction
    modelled from it: the keys, and the sorted arrangement. *)
Lemma ByProductType_order_witness :
  (forall s i j devI devJ,
      nth_error s i = Some devI -> nth_error s j = Some devJ ->
      Less DeconstructDevice s i j =
      Some (string_lt
              (utils.Family (DeconstructDevice (Device.ProductType devI))
               ++ fmt_02d (utils.Major (DeconstructDevice (Device.ProductType devI)))
               ++ fmt_02d (utils.Minor (DeconstructDevice (Device.ProductType devI))))
              (utils.Family (DeconstructDevice (Device.ProductType devJ))
               ++ fmt_02d (utils.Major (DeconstructDevice (Device.ProductType devJ)))
               ++ fmt_02d (utils.Minor (DeconstructDevice (Device.ProductType devJ)))))) /\
  (sort_key DeconstructDevice Fixture.iPhone10_1 = "iPhone1001" /\
   sort_key DeconstructDevice Fixture.iPhone9_2 = "iPhone0902" /\
   sort_key DeconstructDevice Fixture.iPad7_1 = "iPad0701") /\
  (Less DeconstructDevice [Fixture.iPhone10_1; Fixture.iPhone9_2; Fixture.iPad7_1] 2 1
   = Some true /\
   Less DeconstructDevice [Fixture.iPhone10_1; Fixture.iPhone9_2; Fixture.iPad7_1] 1 0
   = Some true /\
   Less DeconstructDevice [Fixture.iPhone10_1; Fixture.iPhone9_2; Fixture.iPad7_1] 2 0
   = Some true) /\
  (forall s,
      Permutation [Fixture.iPhone10_1; Fixture.iPhone9_2; Fixture.iPad7_1] s ->
      IsSorted DeconstructDevice s = true ->
      s = [Fixture.iPad7_1; Fixture.iPhone9_2; Fixture.iPhone10_1]).
Proof.
  exact (ByProductType_order DeconstructDevice
           Fixture.iPhone10_1 Fixture.iPhone9_2 Fixture.iPad7_1
           eq_refl eq_refl eq_refl eq_refl eq_refl eq_refl).
Defined.

(** *** The embedded dataset *)

Section Dataset.
Context (C : Codec).

Lemma GetDevices_frame (pkg : Package) : snd (GetDevices C pkg) = pkg.
Proof.
  unfold GetDevices. destruct (gzip_NewReader C (traitsData pkg)) as [err|zr].
  - reflexivity.
  - destruct (Decode_Devices C zr []) as [devices [err|]]; reflexivity.
Qed.

Lemma GetDevices_run (pkg : Package) :
  GetDevices C pkg = (fst (GetDevices C pkg), pkg).
Proof.
  rewrite <- (GetDevices_frame pkg) at 3. apply surjective_pairing.
Qed.

Lemma GetDeviceForProd_run (prod : string) (pkg : Package) :
  GetDeviceForProd C prod pkg =
  (match fst (GetDevices C pkg) with
   | (_, Some err) => (None, Some err)
   | (devices, None) =>
       match find (fun device => Device.ProductType device =? prod) devices with
       | Some device => (Some device, None)
       | None => (None, Some device_not_found)
       end
   end, pkg).
Proof.
  unfold GetDeviceForProd. rewrite GetDevices_run.
  destruct (fst (GetDevices C pkg)) as [devices [err|]]; [reflexivity|].
  simpl. destruct (find _ devices); reflexivity.
Qed.

Lemma GetDeviceForModel_run (model : string) (pkg : Package) :
  GetDeviceForModel C model pkg =
  (match fst (GetDevices C pkg) with
   | (_, Some err) => (None, Some err)
   | (devices, None) =>
       match find (fun device => Device.Target device =? model) devices with
       | Some device => (Some device, None)
       | None => (None, Some device_not_found)
       end
   end, pkg).
Proof.
  unfold GetDeviceForModel. rewrite GetDevices_run.
  destruct (fst (GetDevices C pkg)) as [devices [err|]]; [reflexivity|].
  simpl. destruct (find _ devices); reflexivity.
Qed.

(** C10.  [GetDevices] leaves the package's variables as they are and its
    result is a function of [traitsData] alone, so a second call returns
    what the first returned; the same holds for [GetDeviceForProd] and
    [GetDeviceForModel], and when the dataset decodes, each returns the
    first record of the dataset, in its order, with the product type
    (respectively the target) asked for. *)
Theorem GetDevices_deterministic (pkg : Package) :
  (snd (GetDevices C pkg) = pkg /\
   fst (GetDevices C (snd (GetDevices C pkg))) = fst (GetDevices C pkg) /\
   forall pkg', traitsData pkg' = traitsData pkg ->
                fst (GetDevices C pkg') = fst (GetDevices C pkg)) /\
  (forall prod,
      snd (GetDeviceForProd C prod pkg) = pkg /\
      fst (GetDeviceForProd C prod (snd (GetDeviceForProd C prod pkg)))
      = fst (GetDeviceForProd C prod pkg)) /\
  (forall model,
      snd (GetDeviceForModel C model pkg) = pkg /\
      fst (GetDeviceForModel C model (snd (GetDeviceForModel C model pkg)))
      = fst (GetDeviceForModel C model pkg)) /\
  (forall devices l1 d l2,
      fst (GetDevices C pkg) = (devices, None) ->
      devices = (l1 ++ d :: l2)%list ->
      (forall prod,
          Device.ProductType d = prod ->
          (forall x, In x l1 -> Device.ProductType x <> prod) ->
          fst (GetDeviceForProd C prod pkg) = (Some d, None)) /\
      (forall model,
          Device.Target d = model ->
          (forall x, In x l1 -> Device.Target x <> model) ->
          fst (GetDeviceForModel C model pkg) = (Some d, None))).
Proof.
  repeat split.
  - apply GetDevices_frame.
  - rewrite GetDevices_frame. reflexivity.
  - intros [data'] H. destruct pkg as [data]. simpl in H. subst data'. reflexivity.
  - rewrite GetDeviceForProd_run. reflexivity.
  - rewrite !GetDeviceForProd_run. reflexivity.
  - rewrite GetDeviceForModel_run. reflexivity.
  - rewrite !GetDeviceForModel_run. reflexivity.
  - intros prod Hd Hl1. rewrite GetDeviceForProd_run, H, H0. simpl.
    rewrite ListFacts.find_first_Some; [reflexivity | |].
    + apply String.eqb_eq, Hd.
    + intros y Hy. apply String.eqb_neq, Hl1, Hy.
  - intros model Hd Hl1. rewrite GetDeviceForModel_run, H, H0. simpl.
    rewrite ListFacts.find_first_Some; [reflexivity | |].
    + apply String.eqb_eq, Hd.
    + intros y Hy. apply String.eqb_neq, Hl1, Hy.
Qed.

(** When no record matches, the lookups fail with [device not found]. *)
Lemma GetDeviceForProd_not_found (pkg : Package) (devices : list Device.t) (prod : string) :
  fst (GetDevices C pkg) = (devices, None) ->
  (forall x, In x devices -> Device.ProductType x <> prod) ->
  fst (GetDeviceForProd C prod pkg) = (None, Some device_not_found).
Proof.
  intros H Hall. rewrite GetDeviceForProd_run, H. simpl.
  replace (find _ devices) with (@None Device.t); [reflexivity|].
  symmetry. apply ListFacts.find_None_all.
  intros y Hy. apply String.eqb_neq, Hall, Hy.
Qed.

End Dataset.

(** Two records of the small dataset have product type [iPhone9,2]; the
    lookup returns the one that comes first. *)
Lemma GetDevices_deterministic_witness :
  fst (GetDeviceForProd Fixture.codec "iPhone9,2" Fixture.pkg)
  = (Some Fixture.iPhone9_2, None).
Proof.
  refine (proj1 (proj2 (proj2 (proj2
            (GetDevices_deterministic Fixture.codec Fixture.pkg)))
            Fixture.dataset [Fixture.iPhone10_1] Fixture.iPhone9_2
            [Fixture.iPad7_1; Fixture.iPhone9_2_dev] eq_refl eq_refl)
          "iPhone9,2" eq_refl _).
  intros x [<-|[]]. simpl. discriminate.
Defined.

Example sorted_arrangement :
  IsSorted DeconstructDevice [Fixture.iPad7_1; Fixture.iPhone9_2; Fixture.iPhone10_1] = true /\
  IsSorted DeconstructDevice [Fixture.iPhone10_1; Fixture.iPhone9_2; Fixture.iPad7_1] = false.
Proof. split; reflexivity. Qed.

End XcodeFacts.

(** ** cmd/ipsw/cmd/download/download_dev.go *)

Module DownloadDevFacts.
Import Go DownloadDev.

(** *** Properties of the calls that hold piece by piece *)

Section Invariant.
Context {X : Type} (E : Env X).

(** A property of call sequences that the empty sequence has and that
    concatenation preserves. *)
Variable P : list Call -> Prop.
Hypothesis P_nil : P [].
Hypothesis P_app : forall t1 t2, P t1 -> P t2 -> P (t1 ++ t2)%list.

Lemma emits_ret {R A} (a : A) : emits P (ret a : M X R A).
Proof. intros w. exact P_nil. Qed.

Lemma emits_returns {R A} (r : R) : emits P (returns r : M X R A).
Proof. intros w. exact P_nil. Qed.

Lemma emits_os_Exit {R A} (code : Z) : emits P (os_Exit code : M X R A).
Proof. intros w. exact P_nil. Qed.

Lemma emits_get_keychain {R} : emits P (get_keychain : M X R string).
Proof. intros w. exact P_nil. Qed.

Lemma emits_set_keychain {R} (s : string) : emits P (set_keychain s : M X R unit).
Proof. intros w. exact P_nil. Qed.

Lemma emits_call {R} (c : Call) : P [c] -> emits P (call E (R := R) c).
Proof. intros H w. exact H. Qed.

Lemma emits_bind {R A B} (c : M X R A) (k : A -> M X R B) :
  emits P c -> (forall a, emits P (k a)) -> emits P (bind c k).
Proof.
  intros Hc Hk w. unfold bind.
  specialize (Hc w). destruct (c w) as [[o w1] t1]. simpl in Hc.
  destruct o as [a| |]; try exact Hc.
  specialize (Hk a w1). destruct (k a w1) as [[o2 w2] t2]. simpl in *.
  apply P_app; assumption.
Qed.

Lemma emits_bind_ret {R A B} (a : A) (k : A -> M X R B) :
  emits P (k a) -> emits P (bind (ret a) k).
Proof.
  intros H w. unfold bind, ret. specialize (H w).
  destruct (k a w) as [[o w'] t]. exact H.
Qed.

Lemma emits_func {R R'} (body : M X R R) : emits P body -> emits P (func (R' := R') body).
Proof.
  intros H w. unfold func. specialize (H w).
  destruct (body w) as [[[r|r|z] w'] t]; exact H.
Qed.

Lemma emits_check (err : option error) : emits P (check err : M X (option error) unit).
Proof. destruct err; [apply emits_returns | apply emits_ret]. Qed.

End Invariant.

(** Takes a goal [emits P c] apart along the structure of [c]. *)
Ltac emits_step P_nil P_app :=
  first
    [ apply (emits_bind _ P_app); [|intro]
    | apply (emits_ret _ P_nil)
    | apply (emits_returns _ P_nil)
    | apply (emits_os_Exit _ P_nil)
    | apply (emits_get_keychain _ P_nil)
    | apply (emits_set_keychain _ P_nil)
    | apply (emits_check _ P_nil)
    | apply emits_func
    | match goal with
      | |- emits ?Q (call ?E0 ?c) => apply (emits_call E0 Q c)
      end
    | match goal with
      | |- emits _ (match ?x with _ => _ end) => destruct x
      end ].

Ltac emits_steps P_nil P_app := repeat (emits_step P_nil P_app).

Section Command.
Context {X : Type} (E : Env X).

Lemma Forall_app_intro (Q : Call -> Prop) (t1 t2 : list Call) :
  Forall Q t1 -> Forall Q t2 -> Forall Q (t1 ++ t2)%list.
Proof. intros H1 H2. apply Forall_app. split; assumption. Qed.

(** *** Configured credentials *)

Lemma credentials_preseeded (home username password : string) :
  username <> "" -> password <> "" ->
  credentials E home username password = ret (username, password).
Proof.
  intros Hu Hp. unfold credentials.
  destruct username; [congruence|]. destruct password; [congruence|].
  reflexivity.
Qed.

Lemma RunE_preseeded_calls (S : Settings) :
  download_dev_username S <> "" -> download_dev_password S <> "" ->
  emits (Forall (preseeded_call (download_dev_username S) (download_dev_password S)))
        (RunE E S).
Proof.
  intros Hu Hp. unfold RunE. cbv zeta.
  pose proof (Forall_nil (preseeded_call (download_dev_username S)
                                         (download_dev_password S))) as P_nil.
  pose proof (Forall_app_intro (preseeded_call (download_dev_username S)
                                               (download_dev_password S))) as P_app.
  unfold open_vault, after_login, watch, download_type, deliver, AskOne.
  apply (emits_bind _ P_app); [emits_steps P_nil P_app; repeat constructor|].
  intro home. apply (emits_bind _ P_app); [apply emits_call; repeat constructor|].
  intros _. rewrite (credentials_preseeded home _ _ Hu Hp).
  apply emits_bind_ret.
  emits_steps P_nil P_app; repeat constructor.
Qed.

(** The calls of two pieces in sequence *)
Lemma trace_bind {R A B} (c : M X R A) (k : A -> M X R B) (w : State X) :
  snd (bind c k w) =
  (snd (c w) ++
   match fst (fst (c w)) with
   | Val a => snd (k a (snd (fst (c w))))
   | _ => []
   end)%list.
Proof.
  unfold bind. destruct (c w) as [[[a|r|z] w1] t1]; simpl.
  - destruct (k a w1) as [[o2 w2] t2]. reflexivity.
  - symmetry. apply app_nil_r.
  - symmetry. apply app_nil_r.
Qed.

Lemma outcome_bind {R A B} (c : M X R A) (k : A -> M X R B) (w : State X) :
  fst (fst (bind c k w)) =
  match fst (fst (c w)) with
  | Val a => fst (fst (k a (snd (fst (c w)))))
  | Return r => Return r
  | Exit code => Exit code
  end.
Proof.
  unfold bind. destruct (c w) as [[[a|r|z] w1] t1]; simpl; try reflexivity.
  destruct (k a w1) as [[o2 w2] t2]. reflexivity.
Qed.

(** *** Opening the vault *)

(** [open_vault] asks for the home directory and opens the vault, and
    makes no other call but the one that sets the log level. *)
Lemma open_vault_cases (S : Settings) (w : State X) :
  (exists home,
      fst (fst (open_vault E S w)) = Val home /\
      snd (open_vault E S w)
      = (level_calls S ++ [os_UserHomeDir; keyring_Open (vault_config E home)])%list) \/
  (exists err,
      fst (fst (open_vault E S w)) = Return (Some err) /\
      (snd (open_vault E S w) = (level_calls S ++ [os_UserHomeDir])%list \/
       exists home,
         snd (open_vault E S w)
         = (level_calls S ++ [os_UserHomeDir; keyring_Open (vault_config E home)])%list)).
Proof.
  unfold open_vault, level_calls, bind, call, check, set_keychain, ret, returns.
  destruct (verbose S); simpl;
    match goal with
    | |- context [respond E os_UserHomeDir ?x] =>
        destruct (respond E os_UserHomeDir x) as [[home [err|]] x1]
    end; simpl;
    try (right; exists err; split; [reflexivity | left; reflexivity]);
    match goal with
    | |- context [respond E (keyring_Open ?c) ?x] =>
        destruct (respond E (keyring_Open c) x) as [[err|] x2]
    end; simpl;
    try (left; exists home; split; reflexivity);
    right; eexists; (split; [reflexivity | right; exists home; reflexivity]).
Qed.


(** *** The password callback *)

(** Runs a piece on a symbolic state, splitting on every answer of the
    collaborators the piece looks at. *)
Ltac run_cases :=
  unfold keyring_Get, keyring_Set, unlock, FilePasswordFunc, AskOne, check,
    func, bind, call, ret, returns, os_Exit, get_keychain, set_keychain;
  simpl;
  repeat match goal with
         | |- context [match ?x with _ => _ end] =>
             lazymatch x with
             | context [match _ with _ => _ end] => fail
             | _ => destruct x; simpl
             end
         end.

Lemma at_prompt_time_app (t1 t2 : list Call) :
  at_prompt_time t1 = true -> at_prompt_time t2 = true ->
  at_prompt_time (t1 ++ t2) = true.
Proof.
  intros H1 H2. induction t1 as [|c t1 IH]; [exact H2|].
  destruct c; simpl in *; try (apply IH; exact H1).
  apply andb_true_iff in H1. destruct H1 as [Hs Hr].
  rewrite (IH Hr), andb_true_r.
  destruct t1 as [|[] [|c' t1]]; simpl in *; try discriminate.
  destruct p; try discriminate. exact Hs.
Qed.

Lemma keyring_Get_at_prompt_time {R} (home key : string) :
  emits (fun t => at_prompt_time t = true) (keyring_Get E home key : M X R _).
Proof. intros w. run_cases; reflexivity. Qed.

Lemma keyring_Set_at_prompt_time {R} (home : string) (item : Item) :
  emits (fun t => at_prompt_time t = true) (keyring_Set E home item : M X R _).
Proof. intros w. run_cases; reflexivity. Qed.

Lemma RunE_at_prompt_time (S : Settings) :
  emits (fun t => at_prompt_time t = true) (RunE E S).
Proof.
  pose proof (eq_refl : at_prompt_time [] = true) as P_nil.
  pose proof at_prompt_time_app as P_app.
  unfold RunE, open_vault, credentials, after_login, watch, download_type, deliver,
    AskOne.
  cbv zeta.
  repeat first [ apply keyring_Get_at_prompt_time
               | apply keyring_Set_at_prompt_time
               | emits_step P_nil P_app ];
    reflexivity.
Qed.

Lemma FilePasswordFunc_known (home msg : string) (w : State X) :
  keychain w <> "" ->
  FilePasswordFunc E home msg w = (Return (keychain w, None), w, []).
Proof.
  intros H. unfold FilePasswordFunc, bind, get_keychain, ret, returns.
  destruct w as [x kc]. simpl in *. destruct kc; [congruence|]. reflexivity.
Qed.

Lemma FilePasswordFunc_asks (home msg : string) (w : State X) :
  keychain w = "" ->
  exists rest,
    snd (FilePasswordFunc E home msg w) =
    os_Stat (vault_path E home)
    :: survey_AskOne
         (Password_prompt
            (if errors_Is (fst (respond E (os_Stat (vault_path E home)) (ext w)))
                          ErrNotExist
             then encrypt_message E home
             else decrypt_message E home))
    :: rest.
Proof.
  intros H. unfold FilePasswordFunc. rewrite trace_bind. simpl.
  rewrite trace_bind. simpl. rewrite H. simpl.
  rewrite trace_bind. simpl. rewrite trace_bind. simpl.
  unfold AskOne. rewrite trace_bind. simpl.
  eexists. reflexivity.
Qed.

(** C8.  When the variable [keychain] is empty, the password callback
    first looks for the vault file and then asks for the password, under
    the message with [encrypt] if the look reported that the file does not
    exist and the one with [decrypt] otherwise, in particular if the file
    is there.  The look is part of the callback: the opening of the vault
    makes none, and in a run every look is followed at once by the
    password prompt and the vault operation that asked for the password.
    When [keychain] is set, the callback returns it and asks nothing. *)
Theorem vault_prompt_at_prompt_time (home msg : string) (w : State X) :
  keychain w = "" ->
  (errors_Is (fst (respond E (os_Stat (vault_path E home)) (ext w))) ErrNotExist = true ->
   exists rest,
     snd (FilePasswordFunc E home msg w) =
     os_Stat (vault_path E home)
     :: survey_AskOne (Password_prompt (encrypt_message E home)) :: rest) /\
  (errors_Is (fst (respond E (os_Stat (vault_path E home)) (ext w))) ErrNotExist = false ->
   exists rest,
     snd (FilePasswordFunc E home msg w) =
     os_Stat (vault_path E home)
     :: survey_AskOne (Password_prompt (decrypt_message E home)) :: rest) /\
  (fst (respond E (os_Stat (vault_path E home)) (ext w)) = None ->
   exists rest,
     snd (FilePasswordFunc E home msg w) =
     os_Stat (vault_path E home)
     :: survey_AskOne (Password_prompt (decrypt_message E home)) :: rest) /\
  (forall S w0 name, ~ In (os_Stat name) (snd (open_vault E S w0))) /\
  (forall S w0, at_prompt_time (snd (RunE E S w0)) = true) /\
  (forall w1, keychain w1 <> "" ->
              FilePasswordFunc E home msg w1 = (Return (keychain w1, None), w1, [])).
Proof.
  intros H. destruct (FilePasswordFunc_asks home msg w H) as [rest Hrest].
  repeat split.
  - intros Hne. rewrite Hne in Hrest. exists rest. exact Hrest.
  - intros Hne. rewrite Hne in Hrest. exists rest. exact Hrest.
  - intros Hne. rewrite Hne in Hrest. exists rest. exact Hrest.
  - intros S w0 name Hin.
    destruct (open_vault_cases S w0) as [(h & _ & Ht) | (err & _ & [Ht | (h & Ht)])];
      rewrite Ht in Hin; unfold level_calls in Hin;
      destruct (verbose S); simpl in Hin; intuition discriminate.
  - intros S w0. exact (RunE_at_prompt_time S w0).
  - intros w1. apply FilePasswordFunc_known.
Qed.

(** *** Saving the credentials *)

(** As [run_cases], keeping what each answer was. *)
Ltac run_cases_eqn :=
  unfold keyring_Get, keyring_Set, unlock, FilePasswordFunc, AskOne, check,
    func, bind, call, ret, returns, os_Exit, get_keychain, set_keychain;
  simpl;
  repeat match goal with
         | |- context [match ?x with _ => _ end] =>
             lazymatch x with
             | context [match _ with _ => _ end] => fail
             | _ => destruct x eqn:?; simpl
             end
         end.

Lemma credentials_saved_last (home username password : string) (w : State X) :
  saved_last (json_Marshal_DevCreds E)
             (fst (fst (credentials E home username password w)))
             (snd (credentials E home username password w)).
Proof.
  unfold credentials. run_cases_eqn;
    repeat split;
    match goal with
    | H : json_Marshal_DevCreds E _ = _ |- _ => rewrite H; reflexivity
    end.
Qed.

Lemma saved_then_login_no_Set marshal (t : list Call) :
  Forall (fun c => is_Set c = false) t -> saved_then_login marshal t.
Proof.
  induction 1 as [|c t Hc _ IH]; simpl; [exact I|].
  destruct c; try exact IH. discriminate Hc.
Qed.

Lemma saved_then_login_after marshal {R} (o : Outcome R (string * string))
      (t1 t2 : list Call) :
  saved_last marshal o t1 ->
  match o with
  | Val (u, p) =>
      exists t2', t2 = app_Login u p :: t2' /\ Forall (fun c => is_Set c = false) t2'
  | _ => t2 = []
  end ->
  saved_then_login marshal (t1 ++ t2).
Proof.
  intros H1 H2. induction t1 as [|c t1 IH].
  - simpl. apply saved_then_login_no_Set.
    destruct o as [[u p]| |]; [|subst t2; constructor ..].
    destruct H2 as (t2' & -> & Hno). constructor; [reflexivity | exact Hno].
  - destruct c; simpl in *; try (apply IH; exact H1).
    destruct H1 as [-> Ho]. destruct o as [[u p]| |]; try contradiction.
    destruct H2 as (t2' & -> & Hno). simpl. split; [exact Ho|].
    apply saved_then_login_no_Set. exact Hno.
Qed.

Lemma saved_then_login_before marshal (t1 t2 : list Call) :
  Forall (fun c => is_Set c = false) t1 ->
  saved_then_login marshal t2 ->
  saved_then_login marshal (t1 ++ t2).
Proof.
  intros H1 H2. induction H1 as [|c t1 Hc _ IH]; [exact H2|].
  destruct c; simpl; try exact IH. discriminate Hc.
Qed.

Lemma after_login_no_Set (S : Settings) :
  emits (Forall (fun c => is_Set c = false)) (after_login E S).
Proof.
  pose proof (Forall_nil (fun c => is_Set c = false)) as P_nil.
  pose proof (Forall_app_intro (fun c => is_Set c = false)) as P_app.
  unfold after_login, watch, download_type, deliver, AskOne.
  emits_steps P_nil P_app; repeat constructor.
Qed.

Lemma RunE_saved_then_login (S : Settings) (w : State X) :
  saved_then_login (json_Marshal_DevCreds E) (snd (RunE E S w)).
Proof.
  unfold RunE. cbv zeta. rewrite trace_bind.
  apply saved_then_login_before.
  { destruct (open_vault_cases S w) as [(h & _ & Ht) | (err & _ & [Ht | (h & Ht)])];
      rewrite Ht; unfold level_calls; destruct (verbose S); repeat constructor. }
  destruct (fst (fst (open_vault E S w))) as [home| |]; try exact I.
  rewrite trace_bind. simpl.
  set (w1 := {| ext := _; keychain := _ |}).
  rewrite trace_bind.
  apply (saved_then_login_after _ _ _ _ (credentials_saved_last home _ _ w1)).
  destruct (fst (fst (credentials E home _ _ w1))) as [[u p]| |]; try reflexivity.
  rewrite trace_bind. simpl. eexists. split; [reflexivity|].
  refine (emits_bind _ (Forall_app_intro _) _ _ _ _ _).
  - apply emits_check. constructor.
  - intros _. apply after_login_no_Set.
Qed.

Lemma bind_ext {R A B} (c c' : M X R A) (k k' : A -> M X R B) :
  (forall w, c w = c' w) -> (forall a w, k a w = k' a w) ->
  forall w, bind c k w = bind c' k' w.
Proof.
  intros Hc Hk w. unfold bind. rewrite Hc.
  destruct (c' w) as [[[a|r|z] w1] t1]; try reflexivity.
  rewrite Hk. reflexivity.
Qed.

(** The value [ring.Set] returns is dropped where the credentials are
    saved. *)
Lemma keyring_Set_discarded {R A} (f : option error -> option error)
      (home : string) (item : Item) (k : M X R A) (w : State X) :
  bind (keyring_Set (mask_Set E f) home item) (fun _ => k) w
  = bind (keyring_Set E home item) (fun _ => k) w.
Proof.
  unfold keyring_Set, bind.
  change (unlock (mask_Set E f) home w) with (unlock (R := R) E home w).
  destruct (unlock E home w) as [[[pw| |] w1] t1]; reflexivity.
Qed.

Lemma credentials_mask_Set (f : option error -> option error)
      (home username password : string) (w : State X) :
  credentials (mask_Set E f) home username password w
  = credentials E home username password w.
Proof.
  unfold credentials.
  destruct ((len username =? 0)%nat || (len password =? 0)%nat); [|reflexivity].
  apply bind_ext; [reflexivity|].
  intros [creds [err|]] w1; [|reflexivity].
  apply bind_ext; [reflexivity|]. intros _ w2.
  apply bind_ext; [reflexivity|]. intros u w3.
  apply bind_ext; [reflexivity|]. intros p w4.
  change (json_Marshal_DevCreds (mask_Set E f)) with (json_Marshal_DevCreds E).
  destruct (json_Marshal_DevCreds E _) as [dat [err'|]]; [reflexivity|].
  apply keyring_Set_discarded.
Qed.

(** Whatever is made of the value [ring.Set] returns, the run is the same. *)
Lemma RunE_mask_Set (f : option error -> option error) (S : Settings) (w : State X) :
  RunE (mask_Set E f) S w = RunE E S w.
Proof.
  unfold RunE. cbv zeta.
  apply bind_ext; [reflexivity|]. intros home w1.
  apply bind_ext; [reflexivity|]. intros _ w2.
  apply bind_ext; [apply credentials_mask_Set|].
  intros [u p] w3. reflexivity.
Qed.

Lemma saved_then_login_In marshal (t : list Call) (item : Item)
      (unlocked : option (string * option error)) :
  saved_then_login marshal t ->
  In (ring_Set item unlocked) t ->
  exists u p,
    In (app_Login u p) t /\
    Data item = fst (marshal {| Username := u; Password := p |}).
Proof.
  induction t as [|c t IH]; intros H Hin; [destruct Hin|].
  destruct Hin as [-> | Hin].
  - simpl in H. destruct H as [H _].
    destruct t as [|[] t]; try contradiction.
    exists username, password. split; [right; left; reflexivity | exact H].
  - assert (H' : saved_then_login marshal t) by (destruct c; simpl in H; tauto).
    destruct (IH H' Hin) as (u & p & Hl & Hd).
    exists u, p. split; [right; exact Hl | exact Hd].
Qed.

(** What the command does with the result of [ring.Set] (line 201, a
    call as a statement): nothing.  Whatever [Set] returns, failure or
    success, the run is the same, call for call and in its outcome.
    Every [Set] on the vault is followed at once by the login with the
    user name and password whose encoding was handed to [Set], so a
    failure to save does not keep the run from logging in with the
    credentials it holds; but nothing in the run can tell of the
    failure. *)
Theorem Set_result_discarded (S : Settings) (w : State X) :
  (forall f, RunE (mask_Set E f) S w = RunE E S w) /\
  saved_then_login (json_Marshal_DevCreds E) (snd (RunE E S w)) /\
  (forall item unlocked,
      In (ring_Set item unlocked) (snd (RunE E S w)) ->
      exists u p,
        In (app_Login u p) (snd (RunE E S w)) /\
        Data item = fst (json_Marshal_DevCreds E {| Username := u; Password := p |})).
Proof.
  split; [intros f; apply RunE_mask_Set|].
  split; [apply RunE_saved_then_login|].
  intros item unlocked. apply saved_then_login_In. apply RunE_saved_then_login.
Qed.

(** *** The download type *)

(** The first entry of the menu is the download type as it stands; only an
    entry with [More] in it becomes [more]. *)
Lemma download_type_menu_entry (w : State X) (dlType : string) :
  fst (respond E (survey_AskOne
                    (Select_prompt "Choose a download type:"
                       ["OSes (iOS, macOS, tvOS...)"; "More (XCode, KDKs...)"]))
               (ext w)) = inr dlType ->
  fst (fst (download_type E false w))
  = Val (if Contains dlType "More" then "more" else dlType).
Proof.
  intros H. unfold download_type, AskOne. rewrite outcome_bind.
  rewrite outcome_bind. unfold bind, call. simpl.
  unfold Resp in *. rewrite H. simpl.
  destruct (Contains dlType "More"); reflexivity.
Qed.

End Command.

(** *** Concrete runs with the scripted collaborators *)

(** The vault file is missing: the callback asks for a password to
    encrypt.  The vault file is there: it asks for one to decrypt. *)
Lemma vault_prompt_at_prompt_time_witness :
  (exists rest,
      snd (FilePasswordFunc Fixture.env "/home/alice" "Enter passphrase to unlock"
                            Fixture.no_vault)
      = os_Stat "/home/alice/.ipsw/ipsw-vault"
        :: survey_AskOne
             (Password_prompt
                "Enter a password to encrypt your credentials to vault: /home/alice/.ipsw/ipsw-vault")
        :: rest) /\
  (exists rest,
      snd (FilePasswordFunc Fixture.env "/home/alice" "Enter passphrase to unlock"
                            Fixture.with_vault)
      = os_Stat "/home/alice/.ipsw/ipsw-vault"
        :: survey_AskOne
             (Password_prompt
                "Enter a password to decrypt your credentials vault: /home/alice/.ipsw/ipsw-vault")
        :: rest).
Proof.
  split.
  - exact (proj1 (vault_prompt_at_prompt_time Fixture.env "/home/alice"
                    "Enter passphrase to unlock" Fixture.no_vault eq_refl) eq_refl).
  - exact (proj1 (proj2 (proj2 (vault_prompt_at_prompt_time Fixture.env "/home/alice"
                    "Enter passphrase to unlock" Fixture.with_vault eq_refl))) eq_refl).
Defined.

(** The first run with the scripted collaborators: [ring.Set] is called
    with the credentials just typed and fails (it fails in every state of
    the scripted vault); the run goes on to log in with them and ends
    without error; no entry of the log is a warning, and the two entries
    there are tell of the failed [Get] and of the file written. *)
Lemma first_run_calls :
  In (ring_Set Fixture.saved_item (Some ("hunter2", None)))
     (snd (RunE Fixture.env Fixture.first_run Fixture.no_vault)) /\
  (forall x,
      fst (respond Fixture.env
             (ring_Set Fixture.saved_item (Some ("hunter2", None))) x)
      = Some Fixture.cannot_write) /\
  In (app_Login "alice" "s3cret")
     (snd (RunE Fixture.env Fixture.first_run Fixture.no_vault)) /\
  fst (fst (RunE Fixture.env Fixture.first_run Fixture.no_vault)) = Return None /\
  (forall msg,
      ~ In (log_Entry WarnLevel msg)
           (snd (RunE Fixture.env Fixture.first_run Fixture.no_vault))) /\
  (forall level msg,
      In (log_Entry level msg)
         (snd (RunE Fixture.env Fixture.first_run Fixture.no_vault)) ->
      msg = "failed to get credentials from vault: The specified item could not be found in the keyring"
      \/ msg = "Creating out/dev_portal_more.json").
Proof.
  repeat split.
  - vm_compute. tauto.
  - vm_compute. tauto.
  - intros msg H. vm_compute in H.
    repeat (destruct H as [H|H]; [discriminate H|]). exact H.
  - intros level msg H. vm_compute in H.
    repeat (destruct H as [H|H];
            [first [discriminate H
                   | injection H as _ <-; left; reflexivity
                   | injection H as _ <-; right; reflexivity]|]).
    destruct H.
Qed.

(** The failure of the other vault operation, [ring.Get], is reported:
    when [Get] returns an error, the next call logs it, as an error entry
    with the text [failed to get credentials from vault: ] and the
    error's, and the command goes on (lines 164-166). *)
Lemma Get_failure_is_logged {X : Type} (E : Env X) (home username password : string)
      (w : State X) (creds : Item) (err : error) :
  username = "" \/ password = "" ->
  fst (fst (keyring_Get E home (VaultName E) (R := option error) w))
  = Val (creds, Some err) ->
  exists rest,
    snd (credentials E home username password w)
    = (snd (keyring_Get E home (VaultName E) (R := option error) w)
       ++ log_Entry ErrorLevel ("failed to get credentials from vault: " ++ Error err)
          :: rest)%list.
Proof.
  intros Hguard H. unfold credentials.
  replace ((len username =? 0)%nat || (len password =? 0)%nat) with true
    by (destruct Hguard; subst; simpl; [reflexivity | symmetry; apply orb_true_r]).
  rewrite trace_bind, H. cbv beta iota.
  rewrite trace_bind. unfold call at 1. simpl. eexists. reflexivity.
Qed.

(** C3.  The code does not do what the claim says of a failed [Set]: on
    the first run with the scripted collaborators [Set] is called and
    fails, and the run logs in with the credentials typed, but no
    warning is logged: the error [ring.Set] returns is dropped, where
    the failure of [ring.Get] in the same run is logged. *)
Lemma Set_failure_not_reported :
  ~ failed_Set_is_reported Fixture.env Fixture.first_run Fixture.no_vault.
Proof.
  intros H.
  destruct first_run_calls as (Hset & Hfail & _ & _ & Hwarn & _).
  destruct (H _ _ Hset) as [_ [msg Hmsg]].
  - intros x. rewrite Hfail. discriminate.
  - exact (Hwarn msg Hmsg).
Qed.

(** C2, on the first entry of the menu: with configured credentials, no
    [more] flag, JSON output and the output directory [out], the user
    picks [OSes (iOS, macOS, tvOS...)] and the listing is written to a
    file named after that entry, not to [dev_portal_os.json]. *)
Theorem json_file_named_after_menu_entry :
  In (os_WriteFile "out/dev_portal_OSes (iOS, macOS, tvOS...).json" [x5b; x5d] 432)
     (snd (RunE Fixture.env Fixture.preseeded Fixture.no_vault)) /\
  In (app_GetDownloadsAsJSON "OSes (iOS, macOS, tvOS...)" false)
     (snd (RunE Fixture.env Fixture.preseeded Fixture.no_vault)) /\
  (forall name data perm,
      In (os_WriteFile name data perm)
         (snd (RunE Fixture.env Fixture.preseeded Fixture.no_vault)) ->
      name <> "out/dev_portal_os.json" /\ name <> "out/dev_portal_more.json").
Proof.
  split; [vm_compute; tauto|]. split; [vm_compute; tauto|].
  intros name data perm H. vm_compute in H.
  repeat (destruct H as [H|H]; [first [discriminate H | injection H as <- _ _]|]);
    [split; discriminate | destruct H].
Qed.

(** With the [more] flag the file is [dev_portal_more.json]. *)
Example json_file_more :
  In (os_WriteFile "out/dev_portal_more.json" [x5b; x5d] 432)
     (snd (RunE Fixture.env Fixture.first_run Fixture.no_vault)).
Proof. vm_compute. tauto. Qed.


End DownloadDevFacts.

(** ** internal/download/ipsw_me.go: failures and composition *)

Module IpswMeMore.
Import Go IpswMe ListFacts.

Section Client.
Context (E : Env).

(** Splits on what the request of a fetching function returned and on
    each later step of the function. *)
Ltac fetch_cases s :=
  unfold bind, ret, Get; simpl;
  destruct (http_Get E _ (net E s)) as [[?err|?res] ?n]; simpl;
  [ | destruct (StatusCode _ =? http_StatusOK)%Z eqn:?St; simpl;
      [ destruct (Body _) as [?body [?e|]] eqn:?B; simpl | ] ].


Lemma status_not_ok (res : Response) :
  StatusCode res <> http_StatusOK ->
  negb (StatusCode res =? http_StatusOK)%Z = true.
Proof.
  intros H. destruct (StatusCode res =? http_StatusOK)%Z eqn:St; [|reflexivity].
  apply Z.eqb_eq in St. contradiction.
Qed.

(** X2.  A response whose status is not 200 is a failure of the call,
    with the error [api returned status: <status>]; the body is not
    decoded, and the value returned beside the error is empty. *)
Theorem non_200_is_failure (s s1 : State E) (res : Response) :
  StatusCode res <> http_StatusOK ->
  (Get E (ipswMeAPI ++ "devices") s = (inr res, s1) ->
   GetAllDevices E s = (([], Some (api_status_error res)), s1)) /\
  (forall identifier,
      Get E (ipswMeAPI ++ "device/" ++ identifier) s = (inr res, s1) ->
      GetDevice E identifier s = ((Device.zero, Some (api_status_error res)), s1) /\
      GetDeviceIPSWs E identifier s = (([], Some (api_status_error res)), s1)) /\
  (forall version,
      Get E (ipswMeAPI ++ "ipsw/" ++ version) s = (inr res, s1) ->
      GetAllIPSW E version s = (([], Some (api_status_error res)), s1) /\
      forall identifier,
        GetBuildID E version identifier s = (("", Some (api_status_error res)), s1)) /\
  (forall identifier buildID,
      Get E (ipswMeAPI ++ "ipsw/" ++ identifier ++ "/" ++ buildID) s = (inr res, s1) ->
      GetIPSW E identifier buildID s = ((IPSW.zero, Some (api_status_error res)), s1)) /\
  Error (api_status_error res) = "api returned status: " ++ Status res.
Proof.
  intros H. apply status_not_ok in H.
  repeat (split || intros); try reflexivity;
    unfold GetDeviceIPSWs, GetAllDevices, GetDevice, GetAllIPSW, GetBuildID, GetIPSW, bind;
    unfold Get in *; simpl in *;
    match goal with
    | G : (let (_, _) := http_Get E ?u (net E s) in _) = _ |- _ =>
        destruct (http_Get E u (net E s)) as [r n]; injection G as -> <-
    end;
    simpl; rewrite H; reflexivity.
Qed.

(** X3.  [GetBuildID] is [GetAllIPSW] followed by the search of the list
    it returns: it fails with the error of [GetAllIPSW] whenever that
    fails, and otherwise answers from the first firmware with the
    identifier. *)
Theorem GetBuildID_via_GetAllIPSW (version identifier : string) (s : State E) :
  GetBuildID E version identifier s =
  match GetAllIPSW E version s with
  | ((_, Some err), s1) => (("", Some err), s1)
  | ((ipsws, None), s1) =>
      match find (fun i => IPSW.Identifier i =? identifier) ipsws with
      | Some i => ((IPSW.BuildID i, None), s1)
      | None => (("", Some (GetBuildID_not_found version identifier)), s1)
      end
  end.
Proof.
  unfold GetBuildID, GetAllIPSW. fetch_cases s; try reflexivity.
  destruct (Unmarshal_IPSWs E body []) as [v [e|]]; simpl; [reflexivity|].
  destruct (find _ v); reflexivity.
Qed.

(** X4.  [GetVersion] is [GetAllDevices] followed by the scan of the
    reversed catalog with one [GetDevice] per device: the requests it
    writes out itself are those two functions' requests, in its failures
    as in its successes. *)
Theorem GetVersion_via_GetAllDevices (buildID : string) (s : State E) :
  GetVersion E buildID s =
  match GetAllDevices E s with
  | ((_, Some err), s1) =>
      (("", Some (Errorf ("failed to get all devices from ipsw.me API: " ++ Error err))),
       s1)
  | ((devices, None), s1) => scan_devices E (rev devices) buildID s1
  end.
Proof.
  unfold GetVersion, bind.
  destruct (GetAllDevices E s) as [[devices [err|]] s1]; [reflexivity|].
  rewrite IpswMeFacts.GetVersion_loop_scan by lia.
  rewrite firstn_all. reflexivity.
Qed.

(** X5.  When the catalog cannot be fetched, [GetVersion] fails without
    requesting any device: the one request made is the catalog's, and the
    error is a new one whose text is the cause's behind a fixed prefix. *)
Theorem GetVersion_catalog_failure
        (buildID : string) (s s1 : State E) (devices : list Device.t) (err : error) :
  GetAllDevices E s = ((devices, Some err), s1) ->
  GetVersion E buildID s
  = (("", Some (errorString
                  ("failed to get all devices from ipsw.me API: " ++ Error err))), s1) /\
  requests E s1 = (requests E s ++ [(ipswMeAPI ++ "devices")%string])%list /\
  (forall r s2, GetVersion E buildID s = (r, s2) ->
                exists cause, snd r = Some cause /\
                              Contains (Error cause) (Error err) = true).
Proof.
  intros H.
  assert (Run : GetVersion E buildID s
                = (("", Some (errorString
                     ("failed to get all devices from ipsw.me API: " ++ Error err))), s1)).
  { unfold GetVersion, bind. rewrite H. reflexivity. }
  split; [exact Run|]. split.
  - exact (IpswMeFacts.GetAllDevices_requests E s s1 _ H).
  - intros r s2 Hr. rewrite Run in Hr. injection Hr as <- <-.
    eexists. split; [reflexivity|].
    exact (GoFacts.Contains_suffix "failed to get all devices from ipsw.me API: "
                                   (Error err)).
Qed.

End Client.

(** An unknown device is answered with status 404. *)
Lemma non_200_is_failure_witness :
  GetDevice Fixture.env "iPhone1,1" Fixture.start
  = ((Device.zero, Some (errorString "api returned status: 404 Not Found")),
     Build_State Fixture.env 1%nat ["https://api.ipsw.me/v4/device/iPhone1,1"]).
Proof.
  refine (proj1 (proj1 (proj2 (non_200_is_failure Fixture.env Fixture.start _
                   {| StatusCode := 404; Status := "404 Not Found"; Body := ([], None) |}
                   _)) "iPhone1,1" eq_refl)).
  discriminate.
Defined.

(** The remote refuses the connection: one request, no device asked for. *)
Lemma GetVersion_catalog_failure_witness :
  GetVersion Outage.env "19A346" Outage.start
  = (("", Some (errorString
                  "failed to get all devices from ipsw.me API: dial tcp 104.21.0.1:443: connect: connection refused")),
     Build_State Outage.env 1%nat ["https://api.ipsw.me/v4/devices"]).
Proof.
  exact (proj1 (GetVersion_catalog_failure Outage.env "19A346" Outage.start _ []
                  Outage.refused eq_refl)).
Defined.

End IpswMeMore.

(** ** The order of Go strings *)

Module GoOrder.
Import Go.
Import Xcode(two_digits).

Lemma string_lt_irrefl (s : string) : string_lt s s = false.
Proof.
  induction s as [|c s IH]; simpl; [reflexivity|].
  rewrite Nat.ltb_irrefl. exact IH.
Qed.

Lemma string_lt_cons (a b : ascii) (s t : string) :
  string_lt (String a s) (String b t) =
  if (nat_of_ascii a <? nat_of_ascii b)%nat then true
  else if (nat_of_ascii b <? nat_of_ascii a)%nat then false
  else string_lt s t.
Proof. reflexivity. Qed.

Lemma string_lt_trans (a b c : string) :
  string_lt a b = true -> string_lt b c = true -> string_lt a c = true.
Proof.
  revert b c. induction a as [|x a IH]; intros [|y b] [|z c]; simpl;
    try discriminate; try reflexivity.
  intros H1 H2.
  destruct (nat_of_ascii x <? nat_of_ascii y)%nat eqn:Hxy;
  destruct (nat_of_ascii y <? nat_of_ascii x)%nat eqn:Hyx;
  destruct (nat_of_ascii y <? nat_of_ascii z)%nat eqn:Hyz;
  destruct (nat_of_ascii z <? nat_of_ascii y)%nat eqn:Hzy;
  destruct (nat_of_ascii x <? nat_of_ascii z)%nat eqn:Hxz;
  destruct (nat_of_ascii z <? nat_of_ascii x)%nat eqn:Hzx;
  try discriminate; try reflexivity;
  rewrite ?Nat.ltb_lt, ?Nat.ltb_ge in *; try lia.
  exact (IH _ _ H1 H2).
Qed.

Lemma string_lt_asym (a b : string) :
  string_lt a b = true -> string_lt b a = false.
Proof.
  revert b. induction a as [|x a IH]; intros [|y b]; simpl;
    try discriminate; try reflexivity.
  destruct (nat_of_ascii x <? nat_of_ascii y)%nat eqn:Hxy;
  destruct (nat_of_ascii y <? nat_of_ascii x)%nat eqn:Hyx;
  try discriminate; try reflexivity;
  rewrite ?Nat.ltb_lt, ?Nat.ltb_ge in *; try lia.
  apply IH.
Qed.

(** Two strings neither of which is below the other are the same. *)
Lemma string_lt_tie (a b : string) :
  string_lt a b = false -> string_lt b a = false -> a = b.
Proof.
  revert b. induction a as [|x a IH]; intros [|y b]; simpl;
    try discriminate; try reflexivity.
  destruct (nat_of_ascii x <? nat_of_ascii y)%nat eqn:Hxy;
  destruct (nat_of_ascii y <? nat_of_ascii x)%nat eqn:Hyx;
  try discriminate.
  intros H1 H2. rewrite Nat.ltb_ge in Hxy, Hyx.
  assert (Hc : nat_of_ascii x = nat_of_ascii y) by lia.
  apply (f_equal ascii_of_nat) in Hc. rewrite !ascii_nat_embedding in Hc.
  rewrite Hc, (IH b H1 H2). reflexivity.
Qed.

(** A common prefix does not count. *)
Lemma string_lt_prefix (p a b : string) :
  string_lt (p ++ a) (p ++ b) = string_lt a b.
Proof.
  induction p as [|c p IH]; simpl; [reflexivity|].
  rewrite Nat.ltb_irrefl. exact IH.
Qed.

(** Prefixes of one length decide, unless they are the same. *)
Lemma string_lt_app (x y a b : string) :
  String.length x = String.length y ->
  string_lt (x ++ a) (y ++ b) =
  if string_lt x y then true
  else if string_lt y x then false
  else string_lt a b.
Proof.
  revert y. induction x as [|c x IH]; intros [|d y] H; simpl in *;
    try discriminate.
  - destruct a, b; reflexivity.
  - injection H as H.
    destruct (nat_of_ascii c <? nat_of_ascii d)%nat; [reflexivity|].
    destruct (nat_of_ascii d <? nat_of_ascii c)%nat; [reflexivity|].
    apply IH, H.
Qed.

Lemma two_digits_spec (z : Z) : In z two_digits <-> (0 <= z < 100)%Z.
Proof.
  unfold two_digits. rewrite in_map_iff. split.
  - intros (n & <- & Hn). apply in_seq in Hn. lia.
  - intros H. exists (Z.to_nat z). split; [lia|]. apply in_seq. lia.
Qed.

Lemma fmt_02d_table :
  forallb (fun a =>
    (String.length (fmt_02d a) =? 2)%nat &&
    forallb (fun b => Bool.eqb (string_lt (fmt_02d a) (fmt_02d b)) (a <? b)%Z)
            two_digits)
    two_digits = true.
Proof. vm_compute. reflexivity. Qed.

(** Below 100, [%02d] prints two characters, and the order of the
    printed numbers is the order of the numbers. *)
Lemma fmt_02d_length (a : Z) :
  (0 <= a < 100)%Z -> String.length (fmt_02d a) = 2%nat.
Proof.
  intros Ha. pose proof fmt_02d_table as T. rewrite forallb_forall in T.
  specialize (T a (proj2 (two_digits_spec a) Ha)).
  apply andb_true_iff in T. apply Nat.eqb_eq. exact (proj1 T).
Qed.

Lemma fmt_02d_order (a b : Z) :
  (0 <= a < 100)%Z -> (0 <= b < 100)%Z ->
  string_lt (fmt_02d a) (fmt_02d b) = (a <? b)%Z.
Proof.
  intros Ha Hb. pose proof fmt_02d_table as T. rewrite forallb_forall in T.
  specialize (T a (proj2 (two_digits_spec a) Ha)).
  apply andb_true_iff in T. destruct T as [_ T]. rewrite forallb_forall in T.
  specialize (T b (proj2 (two_digits_spec b) Hb)).
  apply Bool.eqb_prop in T. exact T.
Qed.

End GoOrder.

(** ** pkg/xcode/xcode.go: the sort interface and the lookups *)

Module XcodeMore.
Import Go Xcode ListFacts.

(** *** [Devices] as a [sort.Interface] *)

Lemma length_store (d : Devices) (i : nat) (x : Device.t) :
  length (store d i x) = length d.
Proof.
  revert i. induction d as [|y d IH]; intros [|i]; simpl; try reflexivity.
  rewrite IH. reflexivity.
Qed.

Lemma nth_error_store (d : Devices) (i k : nat) (x : Device.t) :
  nth_error (store d i x) k =
  if (k =? i)%nat then (if (i <? length d)%nat then Some x else None)
  else nth_error d k.
Proof.
  revert i k. induction d as [|y d IH]; intros i k.
  - replace (nth_error (store [] i x) k) with (@None Device.t)
      by (destruct i, k; reflexivity).
    replace (nth_error [] k) with (@None Device.t) by (destruct k; reflexivity).
    simpl. destruct (k =? i)%nat; [|reflexivity]. destruct i; reflexivity.
  - destruct i as [|i], k as [|k]; simpl; try reflexivity.
    rewrite IH. reflexivity.
Qed.

Lemma Swap_None (d : Devices) (i j : nat) :
  Swap d i j = None <-> Len d <= i \/ Len d <= j.
Proof.
  unfold Swap, Len. rewrite <- !nth_error_None.
  destruct (nth_error d i), (nth_error d j); split; intros H;
    try discriminate; try (destruct H; discriminate); auto.
Qed.

Lemma Swap_nth_error (d d' : Devices) (i j k : nat) :
  Swap d i j = Some d' ->
  nth_error d' k =
  if (k =? j)%nat then nth_error d i
  else if (k =? i)%nat then nth_error d j
  else nth_error d k.
Proof.
  unfold Swap.
  destruct (nth_error d i) as [di|] eqn:Hi; [|discriminate].
  destruct (nth_error d j) as [dj|] eqn:Hj; [|discriminate].
  intros H. injection H as <-.
  assert (Li : i < length d) by (apply nth_error_Some; congruence).
  assert (Lj : j < length d) by (apply nth_error_Some; congruence).
  rewrite !nth_error_store, length_store.
  rewrite (proj2 (Nat.ltb_lt _ _) Li), (proj2 (Nat.ltb_lt _ _) Lj).
  destruct (k =? j)%nat; [reflexivity|].
  destruct (k =? i)%nat; reflexivity.
Qed.

(** Putting the element at [k] first is a rearrangement. *)
Lemma store_Permutation (x y : Device.t) (d : Devices) (k : nat) :
  nth_error d k = Some y -> Permutation (x :: d) (y :: store d k x).
Proof.
  revert k. induction d as [|z d IH]; intros [|k] H; simpl in *; try discriminate.
  - injection H as ->. apply perm_swap.
  - apply perm_trans with (z :: x :: d); [apply perm_swap|].
    apply perm_trans with (z :: y :: store d k x); [|apply perm_swap].
    apply perm_skip, IH, H.
Qed.

Lemma Swap_Permutation (d d' : Devices) (i j : nat) :
  Swap d i j = Some d' -> Permutation d d'.
Proof.
  unfold Swap. revert i j d'.
  induction d as [|z d IH]; intros [|i] [|j] d'; simpl; try discriminate.
  - intros H. injection H as <-. apply Permutation_refl.
  - destruct (nth_error d j) as [dj|] eqn:Hj; [|discriminate].
    intros H. injection H as <-. apply store_Permutation, Hj.
  - destruct (nth_error d i) as [di|] eqn:Hi; [|discriminate].
    intros H. injection H as <-.
    apply Permutation_sym.
    apply perm_trans with (di :: store d i z).
    + apply perm_swap || apply Permutation_refl.
    + apply Permutation_sym, store_Permutation, Hi.
  - destruct (nth_error d i) as [di|] eqn:Hi; [|discriminate].
    destruct (nth_error d j) as [dj|] eqn:Hj; [|discriminate].
    intros H. injection H as <-. apply perm_skip.
    apply (IH i j). rewrite Hi, Hj. reflexivity.
Qed.

(** X6.  [Swap] panics exactly when an index is out of range; otherwise
    it exchanges the elements at the two indices and leaves the others, so
    the length stays, the slice is a rearrangement of what it was, and a
    second [Swap] of the same indices restores it. *)
Theorem Swap_exchanges (d : Devices) (i j : nat) :
  (Swap d i j = None <-> Len d <= i \/ Len d <= j) /\
  (forall d',
      Swap d i j = Some d' ->
      Len d' = Len d /\
      nth_error d' i = nth_error d j /\
      nth_error d' j = nth_error d i /\
      (forall k, k <> i -> k <> j -> nth_error d' k = nth_error d k) /\
      Permutation d d' /\
      Swap d' i j = Some d).
Proof.
  split; [apply Swap_None|]. intros d' H.
  pose proof (Swap_nth_error d d' i j) as N.
  assert (Hi : nth_error d' i = nth_error d j).
  { rewrite (N i H), Nat.eqb_refl.
    destruct (Nat.eqb_spec i j) as [->|]; reflexivity. }
  assert (Hj : nth_error d' j = nth_error d i).
  { rewrite (N j H), Nat.eqb_refl. reflexivity. }
  assert (L : Len d' = Len d).
  { unfold Swap in H. destruct (nth_error d i), (nth_error d j); try discriminate.
    injection H as <-. unfold Len. rewrite !length_store. reflexivity. }
  repeat split; try assumption.
  - intros k Hki Hkj. rewrite (N k H).
    destruct (Nat.eqb_spec k j); [contradiction|].
    destruct (Nat.eqb_spec k i); [contradiction|]. reflexivity.
  - exact (Swap_Permutation d d' i j H).
  - destruct (Swap d' i j) as [d''|] eqn:H'.
    + f_equal. apply nth_error_ext. intros k.
      rewrite (Swap_nth_error d' d'' i j k H'), Hi, Hj, (N k H).
      destruct (Nat.eqb_spec k j) as [->|]; [reflexivity|].
      destruct (Nat.eqb_spec k i) as [->|]; reflexivity.
    + exfalso. apply Swap_None in H'. rewrite L in H'.
      apply Swap_None in H'. congruence.
Qed.

Section Ordering.
Context (DD : string -> utils.Device).

Lemma Less_None (s : Devices) (i j : nat) :
  Less DD s i j = None <-> Len s <= i \/ Len s <= j.
Proof.
  unfold Less, Len. rewrite <- !nth_error_None.
  destruct (nth_error s i), (nth_error s j); split; intros H;
    try discriminate; try (destruct H; discriminate); auto.
Qed.

(** X7.  After [Swap(i, j)], [Less(a, b)] is what [Less] was before at
    the positions [a] and [b] with [i] and [j] exchanged; in particular
    [Less(i, j)] afterwards is [Less(j, i)] before. *)
Theorem Less_after_Swap (s s' : Devices) (i j : nat) :
  Swap s i j = Some s' ->
  (forall a b, Less DD s' a b = Less DD s (transpose i j a) (transpose i j b)) /\
  Less DD s' i j = Less DD s j i /\
  Less DD s' j i = Less DD s i j.
Proof.
  intros H.
  assert (N : forall k, nth_error s' k = nth_error s (transpose i j k)).
  { intros k. rewrite (Swap_nth_error s s' i j k H). unfold transpose.
    destruct (Nat.eqb_spec k j) as [e1|n1], (Nat.eqb_spec k i) as [e2|n2];
      subst; reflexivity. }
  assert (G : forall a b,
             Less DD s' a b = Less DD s (transpose i j a) (transpose i j b)).
  { intros a b. unfold Less. rewrite !N. reflexivity. }
  split; [exact G|].
  assert (Ti : transpose i j i = j) by (unfold transpose; rewrite Nat.eqb_refl; reflexivity).
  assert (Tj : transpose i j j = i).
  { unfold transpose. rewrite Nat.eqb_refl.
    destruct (Nat.eqb_spec j i) as [->|]; reflexivity. }
  split; rewrite G, Ti, Tj; reflexivity.
Qed.

(** X8.  [Less] panics exactly when an index is out of range; on the
    indices in range it is a strict order (no element is less than
    itself, and it is asymmetric and transitive), and two elements
    neither of which is less than the other have the same key. *)
Theorem Less_strict_order (s : Devices) :
  (forall i j, Less DD s i j = None <-> Len s <= i \/ Len s <= j) /\
  (forall i, i < Len s -> Less DD s i i = Some false) /\
  (forall i j, Less DD s i j = Some true -> Less DD s j i = Some false) /\
  (forall i j k,
      Less DD s i j = Some true -> Less DD s j k = Some true ->
      Less DD s i k = Some true) /\
  (forall i j devI devJ,
      nth_error s i = Some devI -> nth_error s j = Some devJ ->
      Less DD s i j = Some false -> Less DD s j i = Some false ->
      sort_key DD devI = sort_key DD devJ).
Proof.
  split; [apply Less_None|]. unfold Less, Len. repeat split.
  - intros i Hi. apply nth_error_Some in Hi.
    destruct (nth_error s i); [|congruence].
    rewrite GoOrder.string_lt_irrefl. reflexivity.
  - intros i j. destruct (nth_error s i), (nth_error s j); try discriminate.
    intros H. injection H as H. rewrite (GoOrder.string_lt_asym _ _ H). reflexivity.
  - intros i j k.
    destruct (nth_error s i), (nth_error s j), (nth_error s k); try discriminate.
    intros H1 H2. injection H1 as H1. injection H2 as H2.
    rewrite (GoOrder.string_lt_trans _ _ _ H1 H2). reflexivity.
  - intros i j devI devJ -> -> H1 H2. injection H1 as H1. injection H2 as H2.
    exact (GoOrder.string_lt_tie _ _ H1 H2).
Qed.

(** X9.  Within one family, and as long as the major and minor numbers
    are between 0 and 99, [Less] is the numeric order of the pairs (major,
    minor).  From 100 on it is not: whatever the family, major 100 comes
    before major 99. *)
Theorem Less_numeric_below_100
        (s : Devices) (i j : nat) (devI devJ : Device.t)
        (family : string) (majorI minorI majorJ minorJ : Z) :
  nth_error s i = Some devI ->
  nth_error s j = Some devJ ->
  DD (Device.ProductType devI)
  = {| utils.Family := family; utils.Major := majorI; utils.Minor := minorI |} ->
  DD (Device.ProductType devJ)
  = {| utils.Family := family; utils.Major := majorJ; utils.Minor := minorJ |} ->
  (0 <= majorI < 100)%Z -> (0 <= minorI < 100)%Z ->
  (0 <= majorJ < 100)%Z -> (0 <= minorJ < 100)%Z ->
  Less DD s i j
  = Some ((majorI <? majorJ)%Z || ((majorI =? majorJ)%Z && (minorI <? minorJ)%Z)) /\
  (forall f minor,
      string_lt (f ++ fmt_02d 100 ++ fmt_02d minor) (f ++ fmt_02d 99 ++ fmt_02d minor)
      = true).
Proof.
  intros Hi Hj Di Dj Ha Hb Hc Hd. split.
  - rewrite (XcodeFacts.Less_key DD s i j devI devJ Hi Hj). f_equal.
    unfold sort_key. rewrite Di, Dj. simpl.
    rewrite GoOrder.string_lt_prefix.
    rewrite GoOrder.string_lt_app
      by (rewrite !GoOrder.fmt_02d_length by assumption; reflexivity).
    rewrite !GoOrder.fmt_02d_order by assumption.
    destruct (Z.ltb_spec majorI majorJ); [reflexivity|].
    destruct (Z.ltb_spec majorJ majorI).
    + destruct (Z.eqb_spec majorI majorJ); [lia | reflexivity].
    + destruct (Z.eqb_spec majorI majorJ); [reflexivity | lia].
  - intros f minor. rewrite GoOrder.string_lt_prefix. reflexivity.
Qed.

End Ordering.

(** *** The dataset that does not load, and the lookups *)

Section Dataset.
Context (C : Codec).

Lemma error_eqb_refl (e : error) : error_eqb e e = true.
Proof.
  induction e as [s|m e IH|o p e IH| |]; simpl;
    rewrite ?String.eqb_refl, ?IH; reflexivity.
Qed.

Lemma errors_Is_chain_refl (e : error) : errors_Is_chain e e = true.
Proof. destruct e; simpl; rewrite ?String.eqb_refl, ?error_eqb_refl; reflexivity. Qed.

(** X10.  When the embedded archive has no valid header, [GetDevices]
    fails with the error of [gzip.NewReader] as it is; when the unpacked
    stream does not decode, it fails with an error that wraps the
    decoder's ([errors.Is] finds it) behind the text [failed unmarshaling
    device_traits.gz data: ]; either way no device is returned, and both
    lookups fail with the same error as [GetDevices]. *)
Theorem GetDevices_failures (pkg : Package) :
  (forall err,
      gzip_NewReader C (traitsData pkg) = inl err ->
      fst (GetDevices C pkg) = ([], Some err)) /\
  (forall zr devices err,
      gzip_NewReader C (traitsData pkg) = inr zr ->
      Decode_Devices C zr [] = (devices, Some err) ->
      exists wrapped,
        fst (GetDevices C pkg) = ([], Some wrapped) /\
        Error wrapped = "failed unmarshaling device_traits.gz data: " ++ Error err /\
        errors_Is (Some wrapped) err = true) /\
  (forall devices err,
      fst (GetDevices C pkg) = (devices, Some err) ->
      devices = [] /\
      forall key,
        fst (GetDeviceForProd C key pkg) = (None, Some err) /\
        fst (GetDeviceForModel C key pkg) = (None, Some err)).
Proof.
  repeat split.
  - intros err H. unfold GetDevices. rewrite H. reflexivity.
  - intros zr devices err Hz Hd.
    exists (wrapError ("failed unmarshaling device_traits.gz data: " ++ Error err) err).
    unfold GetDevices. rewrite Hz, Hd. repeat split.
    simpl. rewrite errors_Is_chain_refl. apply orb_true_r.
  - unfold GetDevices in H.
    destruct (gzip_NewReader C (traitsData pkg)) as [e|zr];
      [simpl in H; congruence|].
    destruct (Decode_Devices C zr []) as [ds [e|]]; simpl in H; congruence.
  - rewrite XcodeFacts.GetDeviceForProd_run, H. reflexivity.
  - rewrite XcodeFacts.GetDeviceForModel_run, H. reflexivity.
Qed.

(** X11.  A lookup returns a device or an error, never both and never
    neither.  When the dataset loads, [GetDeviceForProd] returns a device
    exactly when some record has the product type, the device returned is
    a record of the dataset with that product type, and otherwise the
    error is [device not found]; likewise [GetDeviceForModel] on the
    target. *)
Theorem lookups_sound_and_complete (pkg : Package) :
  (forall key,
      match fst (GetDeviceForProd C key pkg), fst (GetDeviceForModel C key pkg) with
      | (Some _, None), (Some _, None) | (Some _, None), (None, Some _)
      | (None, Some _), (Some _, None) | (None, Some _), (None, Some _) => True
      | _, _ => False
      end) /\
  (forall devices,
      fst (GetDevices C pkg) = (devices, None) ->
      (forall prod,
          (forall d, fst (GetDeviceForProd C prod pkg) = (Some d, None) ->
                     In d devices /\ Device.ProductType d = prod) /\
          ((exists d, In d devices /\ Device.ProductType d = prod) ->
           exists d, fst (GetDeviceForProd C prod pkg) = (Some d, None)) /\
          ((forall d, In d devices -> Device.ProductType d <> prod) ->
           fst (GetDeviceForProd C prod pkg) = (None, Some device_not_found))) /\
      (forall model,
          (forall d, fst (GetDeviceForModel C model pkg) = (Some d, None) ->
                     In d devices /\ Device.Target d = model) /\
          ((exists d, In d devices /\ Device.Target d = model) ->
           exists d, fst (GetDeviceForModel C model pkg) = (Some d, None)) /\
          ((forall d, In d devices -> Device.Target d <> model) ->
           fst (GetDeviceForModel C model pkg) = (None, Some device_not_found)))).
Proof.
  split.
  - intros key. rewrite XcodeFacts.GetDeviceForProd_run, XcodeFacts.GetDeviceForModel_run.
    simpl. destruct (fst (GetDevices C pkg)) as [devices [err|]]; [exact I|].
    destruct (find _ devices); destruct (find _ devices); exact I.
  - intros devices H. split; intros key;
      rewrite ?XcodeFacts.GetDeviceForProd_run, ?XcodeFacts.GetDeviceForModel_run, H;
      simpl; repeat split.
    + destruct (find _ devices) as [d'|] eqn:F; [|discriminate].
      injection H0 as <-. exact (proj1 (find_some _ _ F)).
    + destruct (find _ devices) as [d'|] eqn:F; [|discriminate].
      injection H0 as <-. apply String.eqb_eq. exact (proj2 (find_some _ _ F)).
    + intros (d & Hin & Hd).
      destruct (find _ devices) as [d'|] eqn:F; [exists d'; reflexivity|].
      exfalso. apply (find_none _ _ F) in Hin. apply String.eqb_neq in Hin. contradiction.
    + intros Hall. replace (find _ devices) with (@None Device.t); [reflexivity|].
      symmetry. apply find_None_all. intros y Hy. apply String.eqb_neq, Hall, Hy.
    + destruct (find _ devices) as [d'|] eqn:F; [|discriminate].
      injection H0 as <-. exact (proj1 (find_some _ _ F)).
    + destruct (find _ devices) as [d'|] eqn:F; [|discriminate].
      injection H0 as <-. apply String.eqb_eq. exact (proj2 (find_some _ _ F)).
    + intros (d & Hin & Hd).
      destruct (find _ devices) as [d'|] eqn:F; [exists d'; reflexivity|].
      exfalso. apply (find_none _ _ F) in Hin. apply String.eqb_neq in Hin. contradiction.
    + intros Hall. replace (find _ devices) with (@None Device.t); [reflexivity|].
      symmetry. apply find_None_all. intros y Hy. apply String.eqb_neq, Hall, Hy.
Qed.

End Dataset.

(** The archive is refused, and the stream does not decode. *)
Lemma GetDevices_failures_witness :
  fst (GetDevices Fixture.codec Damaged.no_archive)
  = ([], Some (errorString "gzip: invalid header")) /\
  exists wrapped,
    fst (GetDevices Damaged.codec Fixture.pkg) = ([], Some wrapped) /\
    Error wrapped = "failed unmarshaling device_traits.gz data: unexpected EOF" /\
    errors_Is (Some wrapped) Damaged.truncated = true.
Proof.
  split.
  - exact (proj1 (GetDevices_failures Fixture.codec Damaged.no_archive) _ eq_refl).
  - exact (proj1 (proj2 (GetDevices_failures Damaged.codec Fixture.pkg))
                 tt [] Damaged.truncated eq_refl eq_refl).
Defined.

(** No record of the small dataset has target [N841AP]. *)
Lemma lookups_sound_and_complete_witness :
  fst (GetDeviceForModel Fixture.codec "N841AP" Fixture.pkg)
  = (None, Some device_not_found).
Proof.
  refine (proj2 (proj2 (proj2 (proj2 (lookups_sound_and_complete
                                        Fixture.codec Fixture.pkg)
                                     Fixture.dataset eq_refl)
                              "N841AP")) _).
  intros d [<-|[<-|[<-|[<-|[]]]]]; discriminate.
Defined.

(** Exchanging the ends of the three devices of the specification. *)
Lemma Swap_exchanges_witness :
  Len [Fixture.iPad7_1; Fixture.iPhone9_2; Fixture.iPhone10_1] = 3%nat /\
  Permutation [Fixture.iPhone10_1; Fixture.iPhone9_2; Fixture.iPad7_1]
              [Fixture.iPad7_1; Fixture.iPhone9_2; Fixture.iPhone10_1] /\
  Swap [Fixture.iPad7_1; Fixture.iPhone9_2; Fixture.iPhone10_1] 0 2
  = Some [Fixture.iPhone10_1; Fixture.iPhone9_2; Fixture.iPad7_1].
Proof.
  pose proof (proj2 (Swap_exchanges
                       [Fixture.iPhone10_1; Fixture.iPhone9_2; Fixture.iPad7_1] 0 2)
                    _ eq_refl) as H.
  exact (conj (proj1 H)
              (conj (proj1 (proj2 (proj2 (proj2 (proj2 H)))))
                    (proj2 (proj2 (proj2 (proj2 (proj2 H))))))).
Defined.

Lemma Less_after_Swap_witness :
  Less DeconstructDevice [Fixture.iPad7_1; Fixture.iPhone9_2; Fixture.iPhone10_1] 0 2
  = Less DeconstructDevice [Fixture.iPhone10_1; Fixture.iPhone9_2; Fixture.iPad7_1] 2 0.
Proof.
  exact (proj1 (proj2 (Less_after_Swap DeconstructDevice
                         [Fixture.iPhone10_1; Fixture.iPhone9_2; Fixture.iPad7_1]
                         _ 0 2 eq_refl))).
Defined.

Lemma Less_strict_order_witness :
  Less DeconstructDevice [Fixture.iPhone10_1; Fixture.iPhone9_2; Fixture.iPad7_1] 0 1
  = Some false.
Proof.
  exact (proj1 (proj2 (proj2 (Less_strict_order DeconstructDevice
                  [Fixture.iPhone10_1; Fixture.iPhone9_2; Fixture.iPad7_1])))
               1%nat 0%nat eq_refl).
Defined.

(** [iPhone9,2] against [iPhone10,1]: 9 is below 10. *)
Lemma Less_numeric_below_100_witness :
  Less DeconstructDevice [Fixture.iPhone10_1; Fixture.iPhone9_2] 1 0 = Some true.
Proof.
  refine (proj1 (Less_numeric_below_100 DeconstructDevice
                   [Fixture.iPhone10_1; Fixture.iPhone9_2] 1 0
                   Fixture.iPhone9_2 Fixture.iPhone10_1 "iPhone" 9 2 10 1
                   eq_refl eq_refl eq_refl eq_refl _ _ _ _)); lia.
Defined.

End XcodeMore.


(** ** The [dev] command: how a run ends and what it calls *)

Module DownloadDevMore.
Import Go DownloadDev.

(** Runs a piece on a symbolic state, splitting on every answer of the
    collaborators the piece looks at. *)
Ltac run_all :=
  unfold keyring_Get, keyring_Set, unlock, FilePasswordFunc, AskOne, check,
    func, bind, call, ret, returns, os_Exit, get_keychain, set_keychain;
  simpl;
  repeat match goal with
         | |- context [match ?x with _ => _ end] =>
             lazymatch x with
             | context [match _ with _ => _ end] => fail
             | _ => destruct x; simpl
             end
         end.

(** As [run_all], keeping what each answer was. *)
Ltac run_all_eqn :=
  unfold keyring_Get, keyring_Set, unlock, FilePasswordFunc, AskOne, check,
    func, bind, call, ret, returns, os_Exit, get_keychain, set_keychain;
  simpl;
  repeat match goal with
         | |- context [match ?x with _ => _ end] =>
             lazymatch x with
             | context [match _ with _ => _ end] => fail
             | _ => destruct x eqn:?; simpl
             end
         end.

(** *** Properties of outcome and calls that hold piece by piece *)

Section Ending.
Context {X : Type} (E : Env X) {R : Type}.

(** A property of outcome and calls that sequencing preserves. *)
Variable Q : Outcome R unit -> list Call -> Prop.
Hypothesis Q_seq :
  forall t1 o t2, Q (Val tt) t1 -> Q o t2 -> Q o (t1 ++ t2)%list.

Lemma ends_bind {A B} (c : M X R A) (k : A -> M X R B) :
  ends Q c -> (forall a, ends Q (k a)) -> ends Q (bind c k).
Proof.
  intros Hc Hk w. unfold bind. specialize (Hc w).
  destruct (c w) as [[o w1] t1]. simpl in Hc.
  destruct o as [a|r|z]; try exact Hc.
  specialize (Hk a w1). destruct (k a w1) as [[o2 w2] t2]. simpl in *.
  apply Q_seq; assumption.
Qed.

Lemma ends_ret {A} (a : A) : Q (Val tt) [] -> ends Q (ret a : M X R A).
Proof. intros H w. exact H. Qed.

Lemma ends_returns {A} (r : R) : Q (Return r) [] -> ends Q (returns r : M X R A).
Proof. intros H w. exact H. Qed.

Lemma ends_os_Exit {A} (code : Z) : Q (Exit code) [] -> ends Q (os_Exit code : M X R A).
Proof. intros H w. exact H. Qed.

Lemma ends_get_keychain : Q (Val tt) [] -> ends Q (get_keychain : M X R string).
Proof. intros H w. exact H. Qed.

Lemma ends_set_keychain (s : string) : Q (Val tt) [] -> ends Q (set_keychain s : M X R unit).
Proof. intros H w. exact H. Qed.

Lemma ends_call (c : Call) : Q (Val tt) [c] -> ends Q (call E (R := R) c).
Proof. intros H w. exact H. Qed.

End Ending.

Lemma ends_check {X} (Q : Outcome (option error) unit -> list Call -> Prop)
      (err : option error) :
  Q (Val tt) [] -> (forall e, Q (Return (Some e)) []) ->
  ends Q (check err : M X (option error) unit).
Proof. intros Hv Hr. destruct err; intros w; simpl; [apply Hr | exact Hv]. Qed.

(** Takes a goal [ends Q c] apart along the structure of [c]. *)
Ltac ends_step Q_seq :=
  first
    [ apply (ends_bind _ Q_seq); [|intro]
    | apply ends_ret
    | apply ends_returns
    | apply ends_os_Exit
    | apply ends_get_keychain
    | apply ends_set_keychain
    | apply ends_check; [|intro]
    | match goal with
      | |- ends ?Q (call ?E0 ?c) => apply (ends_call E0 Q c)
      end
    | match goal with
      | |- ends _ (match ?x with _ => _ end) => destruct x
      end ].

Lemma forget_Val {R A} (o : Outcome R A) : forget o = Val tt <-> exists a, o = Val a.
Proof.
  destruct o; simpl; split; intros H; try discriminate; try (destruct H; discriminate).
  - exists a. reflexivity.
  - reflexivity.
Qed.

Lemma forget_Return {R A} (o : Outcome R A) (r : R) : forget o = Return r <-> o = Return r.
Proof. destruct o; simpl; split; intros H; congruence. Qed.

Lemma forget_Exit {R A} (o : Outcome R A) (code : Z) :
  forget o = Exit code <-> o = Exit code.
Proof. destruct o; simpl; split; intros H; congruence. Qed.

(** *** The process exits only when a prompt is interrupted *)

Section Exits.
Context {X : Type} (E : Env X).

Lemma exits_seq {R} (t1 : list Call) (o : Outcome R unit) (t2 : list Call) :
  exits_after_interrupt (Val tt : Outcome R unit) t1 ->
  exits_after_interrupt o t2 -> exits_after_interrupt o (t1 ++ t2)%list.
Proof.
  intros _ H. destruct o as [a|r|code]; simpl in *; trivial.
  destruct H as [Hc (pre & p & ->)]. split; [exact Hc|].
  exists (t1 ++ pre)%list, p. apply app_assoc.
Qed.

Ltac warned :=
  simpl;
  first [ exact I
        | split;
          [ reflexivity
          | first [ exists (@nil Call); eexists; reflexivity
                  | eexists (cons _ nil); eexists; reflexivity ] ] ].

Lemma AskOne_exits {R} (p : Prompt) (failure : error -> R) :
  ends exits_after_interrupt (AskOne E p failure).
Proof. intros w. run_all; warned. Qed.

Lemma keyring_Get_exits {R} (home key : string) :
  ends exits_after_interrupt (keyring_Get E home key : M X R _).
Proof. intros w. run_all; warned. Qed.

Lemma keyring_Set_exits {R} (home : string) (item : Item) :
  ends exits_after_interrupt (keyring_Set E home item : M X R _).
Proof. intros w. run_all; warned. Qed.

Lemma RunE_exits (S : Settings) : ends exits_after_interrupt (RunE E S).
Proof.
  unfold RunE, open_vault, credentials, after_login, watch, download_type, deliver.
  cbv zeta.
  repeat first [ apply AskOne_exits
               | apply keyring_Get_exits
               | apply keyring_Set_exits
               | ends_step (@exits_seq (option error)) ];
    exact I.
Qed.


End Exits.


(** *** A rejected login ends the run *)

Section Rejected.
Context {X : Type} (E : Env X).

Lemma stops_seq (t1 : list Call) (o : Outcome (option error) unit) (t2 : list Call) :
  stops_at_login (Val tt) t1 -> stops_at_login o t2 -> stops_at_login o (t1 ++ t2)%list.
Proof.
  intros [_ H1] [Ho H2]. split; [exact Ho|].
  apply Forall_app. split; assumption.
Qed.

Ltac stopped := simpl; split; [discriminate | repeat constructor].

Lemma keyring_Get_stops (home key : string) :
  ends stops_at_login (keyring_Get E home key).
Proof. intros w. run_all; stopped. Qed.

Lemma keyring_Set_stops (home : string) (item : Item) :
  ends stops_at_login (keyring_Set E home item).
Proof. intros w. run_all; stopped. Qed.

Hypothesis Login_fails :
  forall u p x, (fst (respond E (app_Login u p) x) : option error) <> None.

Lemma login_stops (S : Settings) (u p : string) :
  ends stops_at_login
       (bind (call E (app_Login u p))
             (fun err => bind (check err) (fun _ => after_login E S))).
Proof.
  intros w. rewrite DownloadDevFacts.outcome_bind, DownloadDevFacts.trace_bind.
  unfold call. simpl.
  assert (G : forall (r : option error) w1,
             r <> None ->
             stops_at_login
               (forget (fst (fst (bind (check r) (fun _ => after_login E S) w1))))
               (app_Login u p
                :: snd (bind (check r) (fun _ => after_login E S) w1))).
  { intros [e|] w1 Hr; [|congruence]. stopped. }
  apply G, Login_fails.
Qed.

Lemma RunE_stops (S : Settings) : ends stops_at_login (RunE E S).
Proof.
  unfold RunE, open_vault, credentials, AskOne.
  cbv zeta.
  repeat first [ apply login_stops
               | apply keyring_Get_stops
               | apply keyring_Set_stops
               | ends_step stops_seq ];
    stopped.
Qed.


End Rejected.


(** *** One login, between the two parts of the command *)

Section Login.
Context {X : Type} (E : Env X).

Lemma login_once_quiet (o : Outcome (option error) unit) (t : list Call) :
  o <> Return None -> Forall before_login t -> login_once o t.
Proof.
  intros Ho H. split; [|split; [intros _; exact H | intros Hr; contradiction]].
  exists t, []. split; [symmetry; apply app_nil_r|]. split; [exact H|].
  left. reflexivity.
Qed.

Lemma login_once_seq (t1 : list Call) (o : Outcome (option error) unit)
      (t2 : list Call) :
  login_once (Val tt) t1 -> login_once o t2 -> login_once o (t1 ++ t2)%list.
Proof.
  intros [_ [H1 _]] [(pre & post & -> & Hpre & Hpost) [H2 H3]].
  specialize (H1 eq_refl). split; [|split].
  - exists (t1 ++ pre)%list, post. split; [apply app_assoc|].
    split; [|exact Hpost]. apply Forall_app. split; assumption.
  - intros Ho. apply Forall_app. split; [exact H1 | exact (H2 Ho)].
  - intros Ho. destruct (H3 Ho) as (u & p & Hin). exists u, p.
    apply in_or_app. right. exact Hin.
Qed.

Ltac quiet :=
  simpl; apply login_once_quiet; [discriminate | repeat constructor].

Lemma keyring_Get_login_once (home key : string) :
  ends login_once (keyring_Get E home key).
Proof. intros w. run_all; quiet. Qed.

Lemma keyring_Set_login_once (home : string) (item : Item) :
  ends login_once (keyring_Set E home item).
Proof. intros w. run_all; quiet. Qed.

Lemma after_login_calls (S : Settings) :
  emits (Forall after_the_login) (after_login E S).
Proof.
  pose proof (Forall_nil after_the_login) as P_nil.
  pose proof (DownloadDevFacts.Forall_app_intro after_the_login) as P_app.
  unfold after_login, watch, download_type, deliver, AskOne.
  DownloadDevFacts.emits_steps P_nil P_app; repeat constructor.
Qed.

(** Once logged in, the command runs to its end: it returns or exits. *)
Lemma after_login_ends (S : Settings) (w : State X) :
  forget (fst (fst (after_login E S w))) <> Val tt.
Proof.
  unfold after_login.
  repeat (rewrite DownloadDevFacts.outcome_bind;
          match goal with
          | |- context [match fst (fst ?c) with _ => _ end] =>
              destruct (fst (fst c))
          end; simpl; try discriminate).
Qed.

Lemma login_login_once (S : Settings) (u p : string) :
  ends login_once
       (bind (call E (app_Login u p))
             (fun err => bind (check err) (fun _ => after_login E S))).
Proof.
  intros w. rewrite DownloadDevFacts.outcome_bind, DownloadDevFacts.trace_bind.
  unfold call. simpl.
  assert (G : forall (r : option error) w1,
             login_once
               (forget (fst (fst (bind (check r) (fun _ => after_login E S) w1))))
               (app_Login u p
                :: snd (bind (check r) (fun _ => after_login E S) w1))).
  { intros r w1. split; [|split].
    - exists [], (app_Login u p
                  :: snd (bind (check r) (fun _ => after_login E S) w1)).
      split; [reflexivity|]. split; [constructor|]. right.
      exists u, p, (snd (bind (check r) (fun _ => after_login E S) w1)).
      split; [reflexivity|].
      destruct r as [e|]; [constructor|].
      rewrite DownloadDevFacts.trace_bind. simpl. apply after_login_calls.
    - intros Ho. exfalso. revert Ho.
      rewrite DownloadDevFacts.outcome_bind.
      destruct r as [e|]; simpl; [discriminate|]. apply after_login_ends.
    - intros _. exists u, p. left. reflexivity. }
  apply G.
Qed.

Lemma RunE_login_once (S : Settings) : ends login_once (RunE E S).
Proof.
  unfold RunE, open_vault, credentials, AskOne.
  cbv zeta.
  repeat first [ apply login_login_once
               | apply keyring_Get_login_once
               | apply keyring_Set_login_once
               | ends_step login_once_seq ];
    quiet.
Qed.

(** X14.  The calls of a run are in two parts with at most one login
    between them.  Before the login come only the calls of the first
    part of the command: the log level, the home directory, the vault
    (opening it, the look for its file, the prompt for its password,
    [Get] and [Set]), the making of the portal session, the prompts for
    user name and password, and warning and error entries of the log.
    After the login come only the calls of the second part: the watch,
    the menu of download types, the listing, the file, the output, the
    download, and info and warning entries of the log; so the run logs
    in at most once and whatever it asks of the portal session comes
    after that login.  A run that returns [nil] has logged in. *)
Theorem one_login_before_portal (S : Settings) (w : State X) :
  login_shape (snd (RunE E S w)) /\
  (fst (fst (RunE E S w)) = Return None ->
   exists u p, In (app_Login u p) (snd (RunE E S w))).
Proof.
  destruct (RunE_login_once S w) as [H [_ Hr]]. split; [exact H|].
  intros Ho. apply Hr. apply forget_Return. exact Ho.
Qed.

End Login.

Lemma one_login_before_portal_witness :
  login_shape (snd (RunE Fixture.env Fixture.first_run Fixture.no_vault)) /\
  (fst (fst (RunE Fixture.env Fixture.first_run Fixture.no_vault)) = Return None ->
   exists u p,
     In (app_Login u p) (snd (RunE Fixture.env Fixture.first_run Fixture.no_vault))).
Proof.
  exact (one_login_before_portal Fixture.env Fixture.first_run Fixture.no_vault).
Defined.

(** *** The listing or the download is delivered once, as the settings say *)

Section Delivery.
Context {X : Type} (E : Env X).

Lemma delivers_once_quiet {R} (o : Outcome R unit) (t : list Call) :
  deliveries t = 0%nat -> delivers_once o t.
Proof. intros H. split; [rewrite H; lia | intros _; exact H]. Qed.

Lemma deliveries_app (t1 t2 : list Call) :
  deliveries (t1 ++ t2) = (deliveries t1 + deliveries t2)%nat.
Proof. unfold deliveries. rewrite filter_app. apply length_app. Qed.

Lemma delivers_once_seq {R} (t1 : list Call) (o : Outcome R unit) (t2 : list Call) :
  delivers_once (Val tt : Outcome R unit) t1 -> delivers_once o t2 ->
  delivers_once o (t1 ++ t2)%list.
Proof.
  intros [_ H1] [H2 H3]. specialize (H1 eq_refl).
  unfold delivers_once. rewrite deliveries_app, H1. split; [exact H2 | exact H3].
Qed.

Ltac none := simpl; apply delivers_once_quiet; reflexivity.

Lemma keyring_Get_delivers_once {R} (home key : string) :
  ends delivers_once (keyring_Get E home key : M X R _).
Proof. intros w. run_all; none. Qed.

Lemma keyring_Set_delivers_once {R} (home : string) (item : Item) :
  ends delivers_once (keyring_Set E home item : M X R _).
Proof. intros w. run_all; none. Qed.

Lemma deliver_delivers_once (asJSON prettyJSON : bool) (output dlType : string) :
  ends delivers_once
       (bind (deliver E asJSON prettyJSON output dlType)
             (fun _ => returns None : M X (option error) unit)).
Proof.
  intros w. unfold deliver. run_all;
    (split; [unfold deliveries; simpl; lia | intros H; discriminate H]).
Qed.

Lemma RunE_delivers_once (S : Settings) : ends delivers_once (RunE E S).
Proof.
  unfold RunE, open_vault, credentials, after_login, watch, download_type, AskOne.
  cbv zeta.
  repeat first [ apply deliver_delivers_once
               | apply keyring_Get_delivers_once
               | apply keyring_Set_delivers_once
               | ends_step (@delivers_once_seq (option error)) ];
    none.
Qed.

Lemma keyring_Get_as_set {R} (S : Settings) (home key : string) :
  emits (Forall (delivery_as_set E S)) (keyring_Get E home key : M X R _).
Proof. intros w. run_all; repeat constructor. Qed.

Lemma keyring_Set_as_set {R} (S : Settings) (home : string) (item : Item) :
  emits (Forall (delivery_as_set E S)) (keyring_Set E home item : M X R _).
Proof. intros w. run_all; repeat constructor. Qed.

Lemma deliver_as_set (S : Settings) (dlType : string) :
  emits (Forall (delivery_as_set E S))
        (deliver E (download_dev_json S) (download_dev_pretty S)
                 (download_dev_output S) dlType).
Proof.
  intros w. unfold deliver.
  destruct (download_dev_json S) eqn:J; destruct (download_dev_output S) eqn:O;
    run_all; repeat constructor; simpl; rewrite ?J, ?O;
      repeat split; try reflexivity; try discriminate.
  all: exists dlType; reflexivity.
Qed.

Lemma RunE_as_set (S : Settings) : emits (Forall (delivery_as_set E S)) (RunE E S).
Proof.
  pose proof (Forall_nil (delivery_as_set E S)) as P_nil.
  pose proof (DownloadDevFacts.Forall_app_intro (delivery_as_set E S)) as P_app.
  unfold RunE, open_vault, credentials, after_login, watch, download_type, AskOne.
  cbv zeta.
  repeat first [ apply deliver_as_set
               | apply keyring_Get_as_set
               | apply keyring_Set_as_set
               | DownloadDevFacts.emits_step P_nil P_app ];
    repeat constructor.
Qed.

(** X15.  A run hands over at most once: it writes one file, or prints
    once, or starts the interactive download once, never two of them.
    Which one follows the settings: a file only for JSON with an output
    directory, named [dev_portal_<type>.json] in that directory and with
    mode 0660; the standard output only for JSON without one; the
    interactive download only without JSON; and the listing is asked of
    the portal only for JSON, with the configured [pretty]. *)
Theorem delivered_once_as_set (S : Settings) (w : State X) :
  deliveries (snd (RunE E S w)) <= 1 /\
  Forall (delivery_as_set E S) (snd (RunE E S w)).
Proof.
  split; [exact (proj1 (RunE_delivers_once S w)) | exact (RunE_as_set S w)].
Qed.

End Delivery.

(** *** Two pieces in sequence, when it is known how the first ends *)

Section Sequence.
Context {X R A B : Type} (c : M X R A) (k : A -> M X R B) (w : State X).

Lemma trace_bind_Val (a : A) :
  fst (fst (c w)) = Val a ->
  snd (bind c k w) = (snd (c w) ++ snd (k a (snd (fst (c w)))))%list.
Proof. intros H. rewrite DownloadDevFacts.trace_bind, H. reflexivity. Qed.

Lemma trace_bind_Exit (code : Z) :
  fst (fst (c w)) = Exit code -> snd (bind c k w) = snd (c w).
Proof. intros H. rewrite DownloadDevFacts.trace_bind, H. apply app_nil_r. Qed.

Lemma outcome_bind_Val (a : A) :
  fst (fst (c w)) = Val a ->
  fst (fst (bind c k w)) = fst (fst (k a (snd (fst (c w))))).
Proof. intros H. rewrite DownloadDevFacts.outcome_bind, H. reflexivity. Qed.

Lemma outcome_bind_Exit (code : Z) :
  fst (fst (c w)) = Exit code -> fst (fst (bind c k w)) = Exit code.
Proof. intros H. rewrite DownloadDevFacts.outcome_bind, H. reflexivity. Qed.

Lemma In_bind_left (x : Call) : In x (snd (c w)) -> In x (snd (bind c k w)).
Proof.
  intros H. rewrite DownloadDevFacts.trace_bind. apply in_or_app. left. exact H.
Qed.

Lemma In_bind_Val (x : Call) (a : A) :
  fst (fst (c w)) = Val a ->
  In x (snd (k a (snd (fst (c w))))) -> In x (snd (bind c k w)).
Proof.
  intros H Hin. rewrite (trace_bind_Val a H). apply in_or_app. right. exact Hin.
Qed.

End Sequence.

(** *** Credentials found in the vault *)

Section Stocked.
Context {X : Type} (E : Env X).

(** As [emits_bind], knowing what the first piece hands on. *)
Lemma emits_bind_val {R A B} (P : list Call -> Prop) (V : A -> Prop)
      (c : M X R A) (k : A -> M X R B) :
  (forall t1 t2, P t1 -> P t2 -> P (t1 ++ t2)%list) ->
  (forall w a, fst (fst (c w)) = Val a -> V a) ->
  emits P c -> (forall a, V a -> emits P (k a)) -> emits P (bind c k).
Proof.
  intros P_app Hv Hc Hk w. unfold bind.
  specialize (Hc w). specialize (Hv w).
  destruct (c w) as [[o w1] t1]. simpl in *.
  destruct o as [a| |]; try exact Hc.
  specialize (Hk a (Hv a eq_refl) w1). destruct (k a w1) as [[o2 w2] t2]. simpl in *.
  apply P_app; assumption.
Qed.

Variables (item : Item) (creds : DevCreds).
Hypothesis Get_finds :
  forall key unlocked x,
    (fst (respond E (ring_Get key unlocked) x) : Item * option error) = (item, None).
Hypothesis Unmarshal_decodes :
  json_Unmarshal_DevCreds E (Data item) DevCreds_zero = (creds, None).

Ltac vault_calls :=
  repeat first [ apply Forall_nil | apply Forall_cons ];
  simpl; try exact I; try discriminate.

Lemma keyring_Get_finds (home key : string) (w : State X) :
  (forall r, fst (fst (keyring_Get E home key (R := option error) w)) = Val r ->
             r = (item, None)) /\
  Forall (from_vault creds) (snd (keyring_Get E home key (R := option error) w)).
Proof.
  run_all; (split; [intros r H; inversion H; apply Get_finds | vault_calls]).
Qed.

Lemma credentials_from_vault (home username password : string) (w : State X) :
  username = "" \/ password = "" ->
  (forall up, fst (fst (credentials E home username password w)) = Val up ->
              up = (Username creds, Password creds)) /\
  Forall (from_vault creds) (snd (credentials E home username password w)).
Proof.
  intros Hguard. unfold credentials.
  replace ((len username =? 0)%nat || (len password =? 0)%nat) with true
    by (destruct Hguard; subst; simpl; [reflexivity | symmetry; apply orb_true_r]).
  destruct (keyring_Get_finds home (VaultName E) w) as [Hr Ht].
  rewrite DownloadDevFacts.outcome_bind, DownloadDevFacts.trace_bind.
  destruct (fst (fst (keyring_Get E home (VaultName E) w))) as [r| |];
    try (split; [intros up H; discriminate H | rewrite app_nil_r; exact Ht]).
  rewrite (Hr r eq_refl), Unmarshal_decodes. simpl.
  split; [intros up H; inversion H; reflexivity | rewrite app_nil_r; exact Ht].
Qed.

Lemma keyring_Get_outcome (home key : string) (w : State X) :
  fst (fst (keyring_Get E home key (R := option error) w)) = Val (item, None) \/
  fst (fst (keyring_Get E home key (R := option error) w)) = Exit 0.
Proof.
  run_all; first [ right; reflexivity | left; f_equal; apply Get_finds ].
Qed.

Lemma credentials_outcome (home username password : string) (w : State X) :
  username = "" \/ password = "" ->
  fst (fst (credentials E home username password w))
  = Val (Username creds, Password creds) \/
  fst (fst (credentials E home username password w)) = Exit 0.
Proof.
  intros Hguard. unfold credentials.
  replace ((len username =? 0)%nat || (len password =? 0)%nat) with true
    by (destruct Hguard; subst; simpl; [reflexivity | symmetry; apply orb_true_r]).
  rewrite DownloadDevFacts.outcome_bind.
  destruct (keyring_Get_outcome home (VaultName E) w) as [H|H]; rewrite H.
  - rewrite Unmarshal_decodes. left. reflexivity.
  - right. reflexivity.
Qed.

Lemma RunE_from_vault (S : Settings) :
  download_dev_username S = "" \/ download_dev_password S = "" ->
  emits (Forall (from_vault creds)) (RunE E S).
Proof.
  intros Hguard.
  pose proof (Forall_nil (from_vault creds)) as P_nil.
  pose proof (DownloadDevFacts.Forall_app_intro (from_vault creds)) as P_app.
  unfold RunE. cbv zeta.
  apply (DownloadDevFacts.emits_bind _ P_app).
  { unfold open_vault. DownloadDevFacts.emits_steps P_nil P_app; vault_calls. }
  intros home.
  apply (DownloadDevFacts.emits_bind _ P_app).
  { apply DownloadDevFacts.emits_call. vault_calls. }
  intros _.
  apply (emits_bind_val _ (fun up => up = (Username creds, Password creds)) _ _ P_app).
  { intros w up. apply credentials_from_vault. exact Hguard. }
  { intros w. apply credentials_from_vault. exact Hguard. }
  intros up ->.
  unfold after_login, watch, download_type, deliver, AskOne.
  DownloadDevFacts.emits_steps P_nil P_app; vault_calls.
  split; reflexivity.
Qed.

(** The part of the command that finds the credentials does not log in. *)
Lemma credentials_not_Login (home username password : string) :
  emits (Forall not_Login) (credentials E home username password).
Proof.
  pose proof (Forall_nil not_Login) as P_nil.
  pose proof (DownloadDevFacts.Forall_app_intro not_Login) as P_app.
  assert (G : forall key, emits (Forall not_Login)
                                (keyring_Get E home key : M X (option error) _)).
  { intros key w. run_all; repeat constructor. }
  assert (S : forall i, emits (Forall not_Login)
                              (keyring_Set E home i : M X (option error) _)).
  { intros i w. run_all; repeat constructor. }
  unfold credentials, AskOne.
  repeat first [ apply G | apply S | DownloadDevFacts.emits_step P_nil P_app ];
    repeat constructor.
Qed.

(** The run logs in with the credentials of the vault, unless it ended
    before it got to them. *)
Lemma RunE_logs_in_from_vault (S : Settings) (w : State X) :
  download_dev_username S = "" \/ download_dev_password S = "" ->
  In (app_Login (Username creds) (Password creds)) (snd (RunE E S w)) \/
  (exists err,
      fst (fst (RunE E S w)) = Return (Some err) /\
      (snd (RunE E S w) = (level_calls S ++ [os_UserHomeDir])%list \/
       exists home,
         snd (RunE E S w)
         = (level_calls S ++ [os_UserHomeDir; keyring_Open (vault_config E home)])%list)) \/
  (fst (fst (RunE E S w)) = Exit 0 /\
   forall u p, ~ In (app_Login u p) (snd (RunE E S w))).
Proof.
  intros Hguard.
  destruct (DownloadDevFacts.open_vault_cases E S w)
    as [(home & Ho & Ht) | (err & Ho & Ht)].
  - pose (w1 := snd (fst (open_vault E S w))).
    pose (c := download_NewDevPortal (portal_config S)).
    pose (w2 := snd (fst (call E c (R := option error) w1))).
    assert (Hn : fst (fst (call E c (R := option error) w1))
                 = Val (fst (respond E c (ext w1)))) by reflexivity.
    pose proof (credentials_not_Login home (download_dev_username S)
                  (download_dev_password S) w2) as Hcalls.
    destruct (credentials_outcome home (download_dev_username S)
                (download_dev_password S) w2 Hguard) as [Hc|Hc].
    + left. unfold RunE. cbv zeta.
      apply (In_bind_Val _ _ _ _ _ Ho). cbv beta.
      apply (In_bind_Val _ _ _ _ _ Hn). cbv beta.
      apply (In_bind_Val _ _ _ _ _ Hc). cbv beta iota.
      apply In_bind_left. left. reflexivity.
    + right. right. split.
      * unfold RunE. cbv zeta.
        rewrite (outcome_bind_Val _ _ _ _ Ho). cbv beta.
        rewrite (outcome_bind_Val _ _ _ _ Hn). cbv beta.
        apply outcome_bind_Exit. exact Hc.
      * assert (T : Forall not_Login (snd (RunE E S w))).
        { unfold RunE. cbv zeta.
          rewrite (trace_bind_Val _ _ _ _ Ho). cbv beta.
          rewrite (trace_bind_Val _ _ _ _ Hn). cbv beta.
          rewrite (trace_bind_Exit _ _ _ _ Hc).
          apply Forall_app. split.
          - rewrite Ht. unfold level_calls. destruct (verbose S); repeat constructor.
          - apply Forall_app. split; [repeat constructor | exact Hcalls]. }
        intros u p Hin. rewrite Forall_forall in T. exact (T _ Hin).
  - right. left. exists err. unfold RunE. cbv zeta.
    rewrite DownloadDevFacts.trace_bind, DownloadDevFacts.outcome_bind, Ho.
    split; [reflexivity|]. rewrite app_nil_r. exact Ht.
Qed.


End Stocked.


(** *** The vault password is asked once *)

Section Callback.
Context {X : Type} (E : Env X).

(** What the callback returns is what it leaves in [keychain]. *)
Lemma FilePasswordFunc_keeps (home msg : string) (w : State X)
      (pw : string) (e : option error) :
  fst (fst (FilePasswordFunc E home msg w)) = Return (pw, e) ->
  pw <> "" ->
  keychain (snd (fst (FilePasswordFunc E home msg w))) = pw /\ e = None.
Proof.
  run_all; intros H Hpw; inversion H; subst; try congruence; split; reflexivity.
Qed.

(** X17.  The password callback asks at most once for a password that is
    not empty: once it has returned one, every later call, whatever the
    vault's message, returns the same password without looking for the
    vault file and without a prompt. *)
Theorem vault_password_asked_once (home msg msg' : string) (w : State X)
        (pw : string) (e : option error) :
  fst (fst (FilePasswordFunc E home msg w)) = Return (pw, e) ->
  pw <> "" ->
  e = None /\
  FilePasswordFunc E home msg' (snd (fst (FilePasswordFunc E home msg w)))
  = (Return (pw, None), snd (fst (FilePasswordFunc E home msg w)), []).
Proof.
  intros H Hpw. destruct (FilePasswordFunc_keeps home msg w pw e H Hpw) as [K ->].
  split; [reflexivity|].
  rewrite DownloadDevFacts.FilePasswordFunc_known; rewrite K; [reflexivity | exact Hpw].
Qed.

End Callback.

Lemma vault_password_asked_once_witness :
  fst (fst (FilePasswordFunc Fixture.env "/home/alice" "unlock" Fixture.no_vault))
  = Return ("hunter2", None) /\
  "hunter2" <> "" /\
  (@None error = None /\
   FilePasswordFunc Fixture.env "/home/alice" "again"
     (snd (fst (FilePasswordFunc Fixture.env "/home/alice" "unlock" Fixture.no_vault)))
   = (Return ("hunter2", None),
      snd (fst (FilePasswordFunc Fixture.env "/home/alice" "unlock" Fixture.no_vault)),
      [])).
Proof.
  split; [reflexivity|]. split; [discriminate|].
  apply (vault_password_asked_once Fixture.env "/home/alice" "unlock" "again"
           Fixture.no_vault "hunter2" None).
  - reflexivity.
  - discriminate.
Defined.

(** *** A configured vault password *)

Section Configured.
Context {X : Type} (E : Env X).

Lemma keeps_bind {R A B} (I : State X -> Prop) (Q : Call -> Prop)
      (c : M X R A) (k : A -> M X R B) :
  keeps I (Forall Q) c -> (forall a, keeps I (Forall Q) (k a)) ->
  keeps I (Forall Q) (bind c k).
Proof.
  intros Hc Hk w Hw. unfold bind. destruct (Hc w Hw) as [Pt Iw].
  destruct (c w) as [[o w1] t1]. simpl in *.
  destruct o as [a| |]; try (split; assumption).
  destruct (Hk a w1 Iw) as [Pt2 Iw2]. destruct (k a w1) as [[o2 w2] t2]. simpl in *.
  split; [apply Forall_app; split; assumption | exact Iw2].
Qed.

Lemma keeps_ret {R A} (I : State X -> Prop) (Q : Call -> Prop) (a : A) :
  keeps I (Forall Q) (ret a : M X R A).
Proof. intros w Hw. split; [constructor | exact Hw]. Qed.

Lemma keeps_returns {R A} (I : State X -> Prop) (Q : Call -> Prop) (r : R) :
  keeps I (Forall Q) (returns r : M X R A).
Proof. intros w Hw. split; [constructor | exact Hw]. Qed.

Lemma keeps_os_Exit {R A} (I : State X -> Prop) (Q : Call -> Prop) (code : Z) :
  keeps I (Forall Q) (os_Exit code : M X R A).
Proof. intros w Hw. split; [constructor | exact Hw]. Qed.

Lemma keeps_check (I : State X -> Prop) (Q : Call -> Prop) (err : option error) :
  keeps I (Forall Q) (check err : M X (option error) unit).
Proof. destruct err; [apply keeps_returns | apply keeps_ret]. Qed.

Lemma keeps_call {R} (password : string) (Q : Call -> Prop) (c : Call) :
  Q c -> keeps (holds_password password) (Forall Q) (call E (R := R) c).
Proof. intros H w Hw. split; [repeat constructor; exact H | exact Hw]. Qed.

Lemma keyring_Get_configured {R} (password home key : string) :
  password <> "" ->
  keeps (holds_password password) (Forall (with_vault_password password))
        (keyring_Get E home key : M X R _).
Proof.
  intros Hp [x kc] Hw. unfold holds_password in *. simpl in Hw. subst kc.
  destruct password; [congruence|]. run_all; split; repeat constructor.
Qed.

Lemma keyring_Set_configured {R} (password home : string) (item : Item) :
  password <> "" ->
  keeps (holds_password password) (Forall (with_vault_password password))
        (keyring_Set E home item : M X R _).
Proof.
  intros Hp [x kc] Hw. unfold holds_password in *. simpl in Hw. subst kc.
  destruct password; [congruence|]. run_all; split; repeat constructor.
Qed.

(** [open_vault] leaves the configured vault password in [keychain]. *)
Lemma open_vault_configures (S : Settings) (w : State X) :
  Forall (with_vault_password (download_dev_keychain S)) (snd (open_vault E S w)) /\
  holds_password (download_dev_keychain S) (snd (fst (open_vault E S w))).
Proof.
  unfold open_vault, holds_password. run_all; split; repeat constructor.
Qed.

(** X18.  When a vault password is configured, the run never looks for
    the vault file and never prompts for the vault password: the only
    password prompt left is the one for the account, and every vault
    operation that was asked for its password got the configured one. *)
Theorem configured_vault_password (S : Settings) (w : State X) :
  download_dev_keychain S <> "" ->
  Forall (with_vault_password (download_dev_keychain S)) (snd (RunE E S w)).
Proof.
  intros Hp. unfold RunE. cbv zeta.
  rewrite DownloadDevFacts.trace_bind.
  destruct (open_vault_configures S w) as [Ht Hw].
  apply Forall_app. split; [exact Ht|].
  destruct (fst (fst (open_vault E S w))) as [home| |]; try constructor.
  revert Hw. generalize (snd (fst (open_vault E S w))). intros w1 Hw.
  refine (proj1 (_ w1 Hw)).
  unfold credentials, after_login, watch, download_type, deliver, AskOne.
  repeat first
    [ apply keyring_Get_configured; exact Hp
    | apply keyring_Set_configured; exact Hp
    | apply keeps_bind; [|intro]
    | apply keeps_ret
    | apply keeps_returns
    | apply keeps_os_Exit
    | apply keeps_check
    | apply keeps_call; simpl; try exact I; reflexivity
    | match goal with
      | |- keeps _ _ (match ?x with _ => _ end) => destruct x
      end ].
Qed.

End Configured.

Lemma configured_vault_password_witness :
  download_dev_keychain Scripts.with_keychain <> "" /\
  Forall (with_vault_password (download_dev_keychain Scripts.with_keychain))
         (snd (RunE Scripts.stocked Scripts.with_keychain Fixture.no_vault)).
Proof.
  split; [discriminate|].
  apply (configured_vault_password Scripts.stocked Scripts.with_keychain
           Fixture.no_vault).
  discriminate.
Defined.

(** *** Failures before the portal *)

Section Early.
Context {X : Type} (E : Env X).

(** X19.  When the home directory cannot be told, the run returns that
    error as it is, having called nothing else but, for [verbose], the
    log: no vault is opened and no portal session is made. *)
Theorem no_home_ends_run (S : Settings) (w : State X) (err : error) :
  (forall x, snd (fst (respond E os_UserHomeDir x)) = Some err) ->
  fst (fst (RunE E S w)) = Return (Some err) /\
  snd (RunE E S w) = (level_calls S ++ [os_UserHomeDir])%list.
Proof.
  intros H. unfold RunE, open_vault, level_calls. cbv zeta.
  destruct (verbose S); run_all_eqn;
    match goal with
    | Hr : fst (respond E os_UserHomeDir ?x) = _ |- _ =>
        specialize (H x); unfold Resp in *; rewrite Hr in H; simpl in H
    end;
    try discriminate; inversion H; subst; split; reflexivity.
Qed.


End Early.

Lemma no_home_ends_run_witness :
  (forall x, snd (fst (respond Scripts.homeless os_UserHomeDir x))
             = Some Scripts.no_home) /\
  fst (fst (RunE Scripts.homeless Fixture.first_run Fixture.no_vault))
  = Return (Some Scripts.no_home) /\
  snd (RunE Scripts.homeless Fixture.first_run Fixture.no_vault)
  = (level_calls Fixture.first_run ++ [os_UserHomeDir])%list.
Proof.
  split; [intros x; reflexivity|].
  apply (no_home_ends_run Scripts.homeless Fixture.first_run Fixture.no_vault
           Scripts.no_home).
  intros x. reflexivity.
Defined.


(** *** Every optional step is taken only under its setting *)

Section Optional.
Context {X : Type} (E : Env X).

Ltac allowed :=
  repeat first [ apply Forall_nil | apply Forall_cons ];
  simpl; try exact I; try assumption;
  try (left; assumption); try (right; assumption);
  try (intros H; first [discriminate H | assumption]);
  try congruence.

Lemma open_vault_as_configured (S : Settings) :
  emits (Forall (as_configured S)) (open_vault E S).
Proof.
  intros w. unfold open_vault. destruct (verbose S) eqn:V; run_all; allowed.
Qed.

Lemma credentials_as_configured (S : Settings) (home : string) :
  emits (Forall (as_configured S))
        (credentials E home (download_dev_username S) (download_dev_password S)).
Proof.
  intros w. unfold credentials.
  destruct (download_dev_username S) eqn:U; destruct (download_dev_password S) eqn:P;
    simpl; run_all; allowed.
Qed.

Lemma watch_as_configured (S : Settings) :
  emits (Forall (as_configured S)) (watch E (download_dev_watch S)).
Proof.
  intros w. unfold watch. destruct (download_dev_watch S) eqn:W; simpl; run_all; allowed.
Qed.

Lemma download_type_as_configured (S : Settings) :
  emits (Forall (as_configured S)) (download_type E (download_dev_more S)).
Proof.
  intros w. unfold download_type.
  destruct (download_dev_more S) eqn:More; simpl; run_all; allowed.
Qed.

(** X21.  Every optional step of a run is taken only under its setting:
    the log level is raised only for [verbose]; the user name, the
    account password and the download type are asked only when they are
    not configured; the vault is read or written, and a complaint about
    it logged, only when the user name or the password is missing; and
    the watch starts only with a watch list that is not empty. *)
Theorem optional_steps_as_configured (S : Settings) (w : State X) :
  Forall (as_configured S) (snd (RunE E S w)).
Proof.
  revert w. change (emits (Forall (as_configured S)) (RunE E S)).
  pose proof (Forall_nil (as_configured S)) as P_nil.
  pose proof (DownloadDevFacts.Forall_app_intro (as_configured S)) as P_app.
  unfold RunE, after_login, deliver. cbv zeta.
  repeat first [ apply open_vault_as_configured
               | apply credentials_as_configured
               | apply watch_as_configured
               | apply download_type_as_configured
               | DownloadDevFacts.emits_step P_nil P_app ];
    allowed.
Qed.

End Optional.

End DownloadDevMore.
